(** * Rating engine of NFL-IQ: team and player Elo stores.

    Shallow embedding of [src/ratings/team_elo.py] and
    [src/ratings/player_elo.py].  Ratings, expectations and multipliers
    (Python floats) are modelled as real numbers; seasons, weeks and scores
    (Python ints) as [Z]; the [Dict[str, ...]] stores as stdpp [gmap]s keyed
    by strings; the history lists as Rocq lists in append order.  Module
    [F64] models binary64 rounding, used for the arithmetic of
    [update_ratings] in [TeamEloF64]. *)

From Stdlib Require Import Reals Lra ZArith.
From stdpp Require Import base gmap strings list.

Local Open Scope R_scope.

(** Shared logistic expectation: [1.0 / (1.0 + 10 ** ((b - a) / 400.0))]. *)
Definition logistic (a b : R) : R := 1 / (1 + Rpower 10 ((b - a) / 400)).

(** ** [TeamElo] (team_elo.py) *)
Module TeamElo.

(** Configuration read in [TeamElo.__init__] (defaults in comments). *)
Record config := {
  initial_rating : R;      (* 1500 *)
  k_factor : R;            (* 20 *)
  home_advantage : R;      (* 50 *)
  reversion_factor : R     (* 0.33 *)
}.

Definition default_config : config :=
  {| initial_rating := 1500; k_factor := 20; home_advantage := 50;
     reversion_factor := 33 / 100 |}.

(** History row [(season, week, team_id, rating)]. *)
Definition row : Type := (Z * Z * string * R)%type.

Record state := {
  ratings : gmap string R;
  history : list row
}.

Definition empty_state : state := {| ratings := ∅; history := [] |}.

Section Ops.
Variable c : config.

(** [initialize_ratings]: [self.ratings[team_id] = self.initial_rating]
    for every listed team. *)
Definition initialize_ratings (s : state) (teams : list string) : state :=
  {| ratings := fold_left (fun m t => <[t := initial_rating c]> m) teams (ratings s);
     history := history s |}.

(** [get_rating]: [self.ratings.get(team_id, self.initial_rating)]. *)
Definition get_rating (s : state) (team_id : string) : R :=
  default (initial_rating c) (ratings s !! team_id).

Definition expected_score (rating_a rating_b : R) : R := logistic rating_a rating_b.

(** [mov_multiplier]: [np.log(abs(margin) + 1)]. *)
Definition mov_multiplier (margin : Z) : R := ln (IZR (Z.abs margin + 1)).

(** [update_ratings]: returns the new state and
    [(new_home_rating, new_away_rating)]. *)
Definition update_ratings (s : state) (home_team away_team : string)
    (home_score away_score season week : Z) (is_playoff : bool)
    : state * (R * R) :=
  let home_rating := get_rating s home_team in
  let away_rating := get_rating s away_team in
  let home_rating_adj := home_rating + home_advantage c in
  let home_expected := expected_score home_rating_adj away_rating in
  let away_expected := 1 - home_expected in
  let '(home_result, away_result) :=
    if Z.gtb home_score away_score then (1, 0)
    else if Z.ltb home_score away_score then (0, 1)
    else (1 / 2, 1 / 2) in
  let margin := Z.abs (home_score - away_score) in
  let mov_mult := mov_multiplier margin in
  let playoff_mult := if is_playoff then 12 / 10 else 1 in
  let k := k_factor c * mov_mult * playoff_mult in
  let home_change := k * (home_result - home_expected) in
  let away_change := k * (away_result - away_expected) in
  let new_home_rating := home_rating + home_change in
  let new_away_rating := away_rating + away_change in
  let rs := <[away_team := new_away_rating]> (<[home_team := new_home_rating]> (ratings s)) in
  let hs := history s ++ [(season, week, home_team, new_home_rating);
                          (season, week, away_team, new_away_rating)] in
  ({| ratings := rs; history := hs |}, (new_home_rating, new_away_rating)).

(** [regress_to_mean]: every stored rating becomes
    [current * (1 - f) + mean_rating * f]; the history is not touched. *)
Definition regress_to_mean (s : state) : state :=
  {| ratings := fmap (fun current =>
        current * (1 - reversion_factor c) + initial_rating c * reversion_factor c)
        (ratings s);
     history := history s |}.


(** [df.groupby('team_id').last()]: the rating of the last row of each
    team, in row order. *)
Definition groupby_last (df : list row) : gmap string R :=
  fold_left (fun m '(_, _, t, r) => <[t := r]> m) df ∅.

(** [save_history]: nothing is written when the history is empty; the
    persisted table is the history itself. *)
Definition save_history (s : state) : option (list row) :=
  match history s with [] => None | h => Some h end.

(** [load_history]: a missing file leaves the store as it is; otherwise
    each team of [latest] gets its last rating and the history is replaced. *)
Definition load_history (s : state) (file : option (list row)) : state :=
  match file with
  | None => s
  | Some df => {| ratings := groupby_last df ∪ ratings s; history := df |}
  end.

(** Persist the ledger, discard the live store and load the file into a
    fresh [TeamElo()]. *)
Definition reload (s : state) : state := load_history empty_state (save_history s).

(** A row of [games_df] as read by [compute_team_elo_historical]; a
    missing ([NaN]) score is [None], a missing [game_type] column is [None]. *)
Record game := {
  home_team_id : string;
  away_team_id : string;
  home_score : option Z;
  away_score : option Z;
  season : Z;
  week : Z;
  game_type : option string
}.

(** Body of the loop of [compute_team_elo_historical]; the loop state is
    the store and [current_season]. *)
Definition process_game (st : state * option Z) (g : game) : state * option Z :=
  let '(elo, current_season) := st in
  let elo := match current_season with
             | Some cs => if Z.eqb (season g) cs then elo else regress_to_mean elo
             | None => elo
             end in
  let elo := match home_score g, away_score g with
             | Some hs, Some as_ =>
                 fst (update_ratings elo (home_team_id g) (away_team_id g) hs as_
                        (season g) (week g)
                        (String.eqb (default "REG" (game_type g)) "POST"))
             | _, _ => elo
             end in
  (elo, Some (season g)).

(** [compute_team_elo_historical] on games already sorted by
    [(season, week)]; the result is what [save_history] writes. *)
Definition compute_team_elo_historical (games : list game) : option (list row) :=
  let all_teams := map home_team_id games ++ map away_team_id games in
  let elo := initialize_ratings empty_state all_teams in
  save_history (fst (fold_left process_game games (elo, None))).

End Ops.

(** The live store agrees with the last ledger row of every team. *)
Definition ledger_agrees (c : config) (s : state) : Prop :=
  forall t, get_rating c s t = default (initial_rating c) (groupby_last (history s) !! t).

(** The test [pd.notna(game['home_score']) and pd.notna(game['away_score'])]
    of [compute_team_elo_historical]. *)
Definition has_scores (g : game) : bool :=
  match home_score g, away_score g with
  | Some _, Some _ => true
  | _, _ => false
  end.

(** The [team_id] column of a ledger row. *)
Definition row_team (x : row) : string := x.1.2.

End TeamElo.

(** ** [PlayerElo] (player_elo.py) *)
Module PlayerElo.

(** Configuration read in [PlayerElo.__init__] (defaults in comments). *)
Record config := {
  initial_rating : R;           (* 1000 *)
  k_factors : gmap string R;    (* default_k_factors *)
  reversion_factor : R          (* 0.25 *)
}.

Definition default_k_factors : gmap string R :=
  list_to_map [("QB", 32); ("RB", 20); ("WR", 20); ("TE", 18); ("OL", 15);
               ("DL", 15); ("LB", 18); ("CB", 20); ("S", 18)].

Definition default_config : config :=
  {| initial_rating := 1000; k_factors := default_k_factors;
     reversion_factor := 25 / 100 |}.

(** Entry of [player_info]: [{'position', 'games', 'last_update_week'}]. *)
Record info := {
  position : string;
  games : Z;
  last_update_week : option (Z * Z)
}.

(** History row [(season, week, player_id, position, rating)]. *)
Definition row : Type := (Z * Z * string * string * R)%type.

Record state := {
  ratings : gmap string R;
  player_info : gmap string info;
  history : list row
}.

Definition empty_state : state := {| ratings := ∅; player_info := ∅; history := [] |}.

(** A row of the [roster_data] frame of [compute_team_adjustment]. *)
Record roster_row := {
  r_player_id : string;
  r_position : string;
  r_snap_share : R
}.

(** [position_weights] of [compute_team_adjustment], in dict order. *)
Definition position_weights : list (string * R) :=
  [("QB", 25 / 100); ("RB", 8 / 100); ("WR", 12 / 100); ("TE", 5 / 100);
   ("OL", 15 / 100); ("DL", 12 / 100); ("LB", 10 / 100); ("CB", 8 / 100);
   ("S", 5 / 100)].

(** [np.clip(x, lo, hi)] = [minimum(maximum(x, lo), hi)]. *)
Definition clip (x lo hi : R) : R := Rmin (Rmax x lo) hi.

(** Weeks since the last update, as computed in [regress_inactive_players]. *)
Definition weeks_inactive (current_season current_week last_season last_week : Z) : Z :=
  if Z.gtb current_season last_season
  then (current_season - last_season) * 18 + current_week - last_week
  else current_week - last_week.

Section Ops.
Variable c : config.

(** [initialize_player]: only when [player_id not in self.ratings]. *)
Definition initialize_player (s : state) (player_id position : string) : state :=
  match ratings s !! player_id with
  | Some _ => s
  | None =>
      {| ratings := <[player_id := initial_rating c]> (ratings s);
         player_info := <[player_id := {| position := position; games := 0;
                                          last_update_week := None |}]> (player_info s);
         history := history s |}
  end.

Definition get_rating (s : state) (player_id : string) : R :=
  default (initial_rating c) (ratings s !! player_id).

(** [get_k_factor]: [20.0] for a player without metadata, otherwise
    [self.k_factors.get(position, 20) * snap_share]. *)
Definition get_k_factor (s : state) (player_id : string) (snap_share : R) : R :=
  match player_info s !! player_id with
  | None => 20
  | Some i => default 20 (k_factors c !! position i) * snap_share
  end.

(** [update_rating]: returns the new state and the new rating. *)
Definition update_rating (s : state) (player_id : string)
    (opponent_strength performance_score snap_share : R) (season week : Z)
    : state * R :=
  let current_rating := get_rating s player_id in
  let k := get_k_factor s player_id snap_share in
  let expected := 1 / (1 + Rpower 10 ((opponent_strength - current_rating) / 400)) in
  let change := k * (performance_score - expected) in
  let new_rating := current_rating + change in
  let rs := <[player_id := new_rating]> (ratings s) in
  let pinfo :=
    match player_info s !! player_id with
    | Some i => <[player_id := {| position := position i; games := games i + 1;
                                  last_update_week := Some (season, week) |}]> (player_info s)
    | None => player_info s
    end in
  let pos := match pinfo !! player_id with Some i => position i | None => "UNKNOWN" end in
  ({| ratings := rs; player_info := pinfo;
      history := history s ++ [(season, week, player_id, pos, new_rating)] |},
   new_rating).

(** One iteration of the loop of [regress_inactive_players]; [None] is the
    [KeyError] raised by [self.ratings[player_id]] for a player with
    metadata but no rating. *)
Definition regress_player (current_season current_week : Z)
    (rs : option (gmap string R)) (p : string * info) : option (gmap string R) :=
  match rs with
  | None => None
  | Some rs =>
      let '(player_id, i) := p in
      match last_update_week i with
      | None => Some rs
      | Some (last_season, last_week) =>
          if Z.geb (weeks_inactive current_season current_week last_season last_week) 4
          then match rs !! player_id with
               | Some current =>
                   Some (<[player_id := current * (1 - reversion_factor c)
                                        + initial_rating c * reversion_factor c]> rs)
               | None => None
               end
          else Some rs
      end
  end.

(** The rating a player with metadata [i] and rating [r] is left with by
    one iteration of that loop when no [KeyError] is raised. *)
Definition reverted_rating (current_season current_week : Z) (i : info) (r : R) : R :=
  match last_update_week i with
  | None => r
  | Some (last_season, last_week) =>
      if Z.geb (weeks_inactive current_season current_week last_season last_week) 4
      then r * (1 - reversion_factor c) + initial_rating c * reversion_factor c
      else r
  end.

(** [regress_inactive_players]: the loop over [self.player_info.items()].
    Each iteration reads and writes only its own player's rating, so the
    order of the keys does not change the result. *)
Definition regress_inactive_players (s : state) (current_season current_week : Z)
    : option state :=
  match fold_left (regress_player current_season current_week)
          (map_to_list (player_info s)) (Some (ratings s)) with
  | Some rs => Some {| ratings := rs; player_info := player_info s; history := history s |}
  | None => None
  end.

(** [compute_team_adjustment]. *)
Definition compute_team_adjustment (s : state) (roster_data : list roster_row) : R :=
  let total_adjustment :=
    fold_left (fun total_adjustment '(pos, weight) =>
      let pos_players := List.filter (fun r => String.eqb (r_position r) pos) roster_data in
      if Nat.eqb (length pos_players) 0 then total_adjustment
      else
        let pos_rating := fold_left (fun acc r =>
              acc + get_rating s (r_player_id r) * r_snap_share r) pos_players 0 in
        let pos_delta := pos_rating - initial_rating c in
        total_adjustment + pos_delta * weight)
      position_weights 0 in
  clip (total_adjustment * (1 / 10)) (-100) 100.

(** The team adjustment as the spec words it: the position delta subtracts
    [len * BASE], one base rating per roster player at the position. *)
Definition team_adjustment_spec (s : state) (roster_data : list roster_row) : R :=
  let total :=
    fold_left (fun total '(pos, weight) =>
      let pos_players := List.filter (fun r => String.eqb (r_position r) pos) roster_data in
      let pos_rating := fold_left (fun acc r =>
            acc + get_rating s (r_player_id r) * r_snap_share r) pos_players 0 in
      total + (pos_rating - INR (length pos_players) * initial_rating c) * weight)
      position_weights 0 in
  clip (total * (1 / 10)) (-100) 100.

(** [df.groupby('player_id').last()]: the last row of each player. *)
Definition groupby_last (df : list row) : gmap string row :=
  fold_left (fun m (r : row) => let '(_, _, pid, _, _) := r in <[pid := r]> m) df ∅.

Definition save_history (s : state) : option (list row) :=
  match history s with [] => None | h => Some h end.

(** Columns read from a row of [latest] by [load_history]. *)
Definition row_rating (r : row) : R := let '(_, _, _, _, e) := r in e.

Definition row_info (r : row) : info :=
  let '(se, w, _, pos, _) := r in
  {| position := pos; games := 0; last_update_week := Some (se, w) |}.

(** [load_history]: rating, position and [(season, week)] of the last row
    of each player; [games] is reset to 0. *)
Definition load_history (s : state) (file : option (list row)) : state :=
  match file with
  | None => s
  | Some df =>
      let latest := groupby_last df in
      {| ratings := fmap row_rating latest ∪ ratings s;
         player_info := fmap row_info latest ∪ player_info s;
         history := df |}
  end.

(** Persist, discard, reload into a fresh [PlayerElo()]. *)
Definition reload (s : state) : state := load_history empty_state (save_history s).

(** The two calls of the player store that append to or seed the store. *)
Inductive op :=
| Init (player_id position : string)
| Update (player_id : string) (opponent_strength performance_score snap_share : R)
         (season week : Z).

Definition run_op (s : state) (o : op) : state :=
  match o with
  | Init pid pos => initialize_player s pid pos
  | Update pid opp perf snap se w => fst (update_rating s pid opp perf snap se w)
  end.

End Ops.

(** Every player with a ledger row holds the rating of its last row; a
    player without one is unrated or at the base rating. *)
Definition ledger_agrees (c : config) (s : state) : Prop :=
  forall p, match groupby_last (history s) !! p with
            | Some r => ratings s !! p = Some (row_rating r)
            | None => ratings s !! p = None \/ ratings s !! p = Some (initial_rating c)
            end.

(** The [player_id] column of a ledger row. *)
Definition row_player (x : row) : string := x.1.1.2.

(** Every player with metadata in [player_info] also has a rating, so the
    lookup [self.ratings[player_id]] of [regress_inactive_players] succeeds. *)
Definition info_rated (s : state) : Prop :=
  forall p, is_Some (player_info s !! p) -> is_Some (ratings s !! p).

End PlayerElo.

(** ** Concrete scenarios *)
(** ** Binary64 arithmetic

    Python floats are IEEE 754 binary64 values; the arithmetic operators
    round their exact result to nearest, and [np.log] and [**] call the C
    library, whose results are within one unit in the last place. *)
Module F64.

Definition bpow (e : Z) : R := powerRZ 2 e.

(** A finite binary64 value: [m * 2^e] with [|m| < 2^53] and [e] in range
    (subnormals included). *)
Definition is_f64 (y : R) : Prop :=
  exists m e : Z, y = IZR m * bpow e /\ (Z.abs m < 2 ^ 53)%Z /\ (-1074 <= e <= 971)%Z.

(** [rounds_to x y]: [y] is a result of a floating-point operation whose
    exact result is [x] under round-to-nearest: a binary64 value at least
    as close to [x] as any other (either neighbour on a tie; results that
    overflow to infinity are not covered). *)
Definition rounds_to (x y : R) : Prop :=
  is_f64 y /\ forall z, is_f64 z -> Rabs (x - y) <= Rabs (x - z).

(** [faithful t y]: [y] is a library result for the exact value [t]: a
    binary64 value with no binary64 value strictly between [t] and [y]. *)
Definition faithful (t y : R) : Prop :=
  is_f64 y /\ forall z, is_f64 z -> ~ (Rmin t y < z < Rmax t y).

End F64.

(** ** [TeamElo.update_ratings] in binary64 *)
Module TeamEloF64.
Import TeamElo F64.

(** The arithmetic of [update_ratings] operation by operation, each
    operation rounded: [update_ratings_f64 c s h a hs as_ po nh na] holds
    when [(nh, na)] is a result the float program can return (and store)
    for that call.  The stored ratings, [k_factor] and [home_advantage] are
    the binary64 values held by the store and the configuration. *)
Definition update_ratings_f64 (c : config) (s : state) (home_team away_team : string)
    (home_score away_score : Z) (is_playoff : bool)
    (new_home_rating new_away_rating : R) : Prop :=
  let home_rating := get_rating c s home_team in
  let away_rating := get_rating c s away_team in
  let '(home_result, away_result) :=
    if Z.gtb home_score away_score then (1, 0)
    else if Z.ltb home_score away_score then (0, 1)
    else (1 / 2, 1 / 2) in
  let margin := Z.abs (home_score - away_score) in
  exists home_rating_adj diff exponent power denom home_expected away_expected
         mov_mult playoff_mult k0 k home_delta away_delta home_change away_change,
    (* home_rating_adj = home_rating + self.home_advantage *)
    rounds_to (home_rating + home_advantage c) home_rating_adj /\
    (* expected_score: 1.0 / (1.0 + 10 ** ((rating_b - rating_a) / 400.0)) *)
    rounds_to (away_rating - home_rating_adj) diff /\
    rounds_to (diff / 400) exponent /\
    faithful (Rpower 10 exponent) power /\
    rounds_to (1 + power) denom /\
    rounds_to (1 / denom) home_expected /\
    (* away_expected = 1.0 - home_expected *)
    rounds_to (1 - home_expected) away_expected /\
    (* mov_multiplier: np.log(abs(margin) + 1) *)
    faithful (ln (IZR (Z.abs margin + 1))) mov_mult /\
    (* playoff_mult = 1.2 if is_playoff else 1.0 *)
    (if is_playoff then rounds_to (12 / 10) playoff_mult else playoff_mult = 1) /\
    (* k = self.k_factor * mov_mult * playoff_mult *)
    rounds_to (k_factor c * mov_mult) k0 /\
    rounds_to (k0 * playoff_mult) k /\
    (* home_change = k * (home_result - home_expected), likewise away *)
    rounds_to (home_result - home_expected) home_delta /\
    rounds_to (away_result - away_expected) away_delta /\
    rounds_to (k * home_delta) home_change /\
    rounds_to (k * away_delta) away_change /\
    (* new_home_rating = home_rating + home_change, likewise away *)
    rounds_to (home_rating + home_change) new_home_rating /\
    rounds_to (away_rating + away_change) new_away_rating.

End TeamEloF64.

Module Scenario.

(** Two teams initialised by the default configuration. *)
Definition kc_buf : TeamElo.state :=
  TeamElo.initialize_ratings TeamElo.default_config TeamElo.empty_state ["KC"; "BUF"].

(** The 2023 week-1 game KC 27, BUF 24 and the 2024 week-1 game whose
    scores are missing. *)
Definition opener : TeamElo.game :=
  {| TeamElo.home_team_id := "KC"; TeamElo.away_team_id := "BUF";
     TeamElo.home_score := Some 27%Z; TeamElo.away_score := Some 24%Z;
     TeamElo.season := 2023; TeamElo.week := 1; TeamElo.game_type := None |}.

Definition unscored : TeamElo.game :=
  {| TeamElo.home_team_id := "KC"; TeamElo.away_team_id := "BUF";
     TeamElo.home_score := None; TeamElo.away_score := None;
     TeamElo.season := 2024; TeamElo.week := 1; TeamElo.game_type := None |}.

(** The store after the opener. *)
Definition after_opener : TeamElo.state :=
  fst (TeamElo.update_ratings TeamElo.default_config kc_buf "KC" "BUF" 27 24 2023 1 false).

(** A player restored from a ledger whose last row is week 1 of 2024. *)
Definition restored_player : PlayerElo.state :=
  PlayerElo.load_history PlayerElo.empty_state
    (Some [(2024%Z, 1%Z, "P", "QB", 1100)]).

(** A roster with two quarterbacks who were never rated. *)
Definition two_qbs : list PlayerElo.roster_row :=
  [{| PlayerElo.r_player_id := "P1"; PlayerElo.r_position := "QB"; PlayerElo.r_snap_share := 1 |};
   {| PlayerElo.r_player_id := "P2"; PlayerElo.r_position := "QB"; PlayerElo.r_snap_share := 1 |}].

(** The player of [test_player_elo]: a quarterback just initialised. *)
Definition mahomes : PlayerElo.state :=
  PlayerElo.initialize_player PlayerElo.default_config PlayerElo.empty_state "P_MAHOMES" "QB".

(** A store holding KC at 2^60 (a binary64 value, e.g. loaded from a
    ledger file) and BUF at 1500. *)
Definition big_store : TeamElo.state :=
  {| TeamElo.ratings := <["KC" := F64.bpow 60]> (<["BUF" := 1500]> ∅);
     TeamElo.history := [] |}.

End Scenario.

(** ** Facts about the logistic expectation *)

Lemma Rpower10_pos (x : R) : 0 < Rpower 10 x.
Proof. unfold Rpower. apply exp_pos. Qed.


(** ** Claims about the team store *)
Module TeamClaims.
Import TeamElo.

(** C1 (as amended): in exact real arithmetic, the two rating changes
    applied by [update_ratings] cancel: the returned new ratings are the old ratings plus [d] and minus [d] for
    one real [d] (the home advantage enters only through the expectation),
    and, for two distinct teams, those returned values are what the store
    holds afterwards. *)
Theorem update_ratings_zero_sum (c : config) (s : state) (home away : string)
    (hs as_ season week : Z) (po : bool) :
  let '(s', (nh, na)) := update_ratings c s home away hs as_ season week po in
  (nh - get_rating c s home) + (na - get_rating c s away) = 0 /\
  (exists d, nh = get_rating c s home + d /\ na = get_rating c s away - d) /\
  (home <> away -> ratings s' !! home = Some nh /\ ratings s' !! away = Some na).
Proof.
  unfold update_ratings.
  destruct (Z.gtb hs as_); [|destruct (Z.ltb hs as_)]; cbn.
  all: split; [field | split].
  all: try (eexists; split; [reflexivity | field]).
  all: intros Hne; rewrite lookup_insert_eq; split; [|reflexivity].
  all: rewrite lookup_insert_ne by congruence; apply lookup_insert_eq.
Qed.

Lemma update_ratings_zero_sum_witness :
  "KC" <> "BUF" /\
  ratings (fst (update_ratings default_config Scenario.kc_buf "KC" "BUF" 27 24 2023 1 false))
    !! "KC"
  = Some (fst (snd (update_ratings default_config Scenario.kc_buf "KC" "BUF" 27 24 2023 1 false))).
Proof.
  assert (Hne : "KC" <> "BUF") by done.
  split; [exact Hne|].
  pose proof (update_ratings_zero_sum default_config Scenario.kc_buf "KC" "BUF" 27 24 2023 1 false)
    as H.
  destruct (update_ratings default_config Scenario.kc_buf "KC" "BUF" 27 24 2023 1 false)
    as [s' [nh na]].
  exact (proj1 (proj2 (proj2 H) Hne)).
Defined.


End TeamClaims.

Lemma logistic_bounds (a b : R) : 0 < logistic a b < 1.
Proof.
  unfold logistic.
  pose proof (Rpower10_pos ((b - a) / 400)) as Hp.
  set (x := Rpower 10 ((b - a) / 400)) in *.
  split.
  - apply Rdiv_lt_0_compat; lra.
  - apply (Rmult_lt_reg_r (1 + x)); [lra|].
    unfold Rdiv. rewrite Rmult_assoc, Rinv_l by lra. lra.
Qed.

Lemma ln4_pos : 0 < ln 4.
Proof. rewrite <- ln_1. apply ln_increasing; lra. Qed.

(** ** Facts about the scenarios *)
Module ScenarioFacts.
Import Scenario.

Lemma kc_buf_ratings :
  TeamElo.ratings kc_buf !! "KC" = Some 1500 /\ TeamElo.ratings kc_buf !! "BUF" = Some 1500.
Proof. split; reflexivity. Qed.

Lemma after_opener_facts : exists nh na,
  1500 < nh /\
  TeamElo.ratings after_opener !! "KC" = Some nh /\
  TeamElo.ratings after_opener !! "BUF" = Some na /\
  TeamElo.history after_opener = [(2023%Z, 1%Z, "KC", nh); (2023%Z, 1%Z, "BUF", na)].
Proof.
  unfold after_opener, TeamElo.update_ratings, TeamElo.get_rating.
  destruct kc_buf_ratings as [-> ->]. cbn -[ln Rpower].
  eexists _, _. split; [| split; [reflexivity | split; reflexivity]].
  unfold TeamElo.mov_multiplier, TeamElo.expected_score.
  change (Z.abs (Z.abs (27 - 24)) + 1)%Z with 4%Z.
  pose proof ln4_pos. pose proof (logistic_bounds (1500 + 50) 1500).
  assert (0 < 20 * ln 4 * 1 * (1 - logistic (1500 + 50) 1500)).
  { repeat apply Rmult_lt_0_compat; lra. }
  lra.
Qed.

End ScenarioFacts.

(** ** Lemmas on the team store *)
Module TeamLemmas.
Import TeamElo.

Lemma fold_insert_lookup (v : R) (teams : list string) (m : gmap string R) (t : string) :
  fold_left (fun m t => <[t := v]> m) teams m !! t
  = if bool_decide (t ∈ teams) then Some v else m !! t.
Proof.
  revert m. induction teams as [|t' teams IH]; intros m; cbn.
  - rewrite bool_decide_false; [done | apply not_elem_of_nil].
  - rewrite IH. destruct (decide (t = t')) as [->|Hne].
    + rewrite lookup_insert_eq.
      destruct (bool_decide (t' ∈ teams)) eqn:E;
        rewrite (bool_decide_true (t' ∈ t' :: teams)) by constructor; done.
    + rewrite lookup_insert_ne by congruence.
      destruct (bool_decide (t ∈ teams)) eqn:E.
      * apply bool_decide_eq_true in E.
        rewrite bool_decide_true; [done | by constructor].
      * apply bool_decide_eq_false in E.
        rewrite bool_decide_false; [done|].
        intros Hin. apply elem_of_cons in Hin as [?|?]; congruence.
Qed.

Lemma team_reload_ratings (s : state) : ratings (reload s) = groupby_last (history s).
Proof.
  unfold reload, save_history, load_history.
  destruct (history s) as [|r h]; cbn; [reflexivity|].
  apply map_union_empty.
Qed.

Lemma ledger_agrees_init (c : config) (teams : list string) :
  ledger_agrees c (initialize_ratings c empty_state teams).
Proof.
  intros t. unfold get_rating, initialize_ratings; cbn.
  rewrite fold_insert_lookup, lookup_empty.
  by destruct (bool_decide (t ∈ teams)).
Qed.

Lemma ledger_agrees_update (c : config) (s : state) h a hs as_ se w po :
  ledger_agrees c s ->
  ledger_agrees c (fst (update_ratings c s h a hs as_ se w po)).
Proof.
  intros Hs t. unfold update_ratings.
  destruct (Z.gtb hs as_); [|destruct (Z.ltb hs as_)]; cbn;
  rewrite fold_left_app; cbn; unfold get_rating; cbn;
  (destruct (decide (t = a)) as [->|Ha];
   [rewrite !lookup_insert_eq; reflexivity|
    rewrite !(lookup_insert_ne _ a) by congruence;
    destruct (decide (t = h)) as [->|Hh];
    [rewrite !lookup_insert_eq; reflexivity|
     rewrite !(lookup_insert_ne _ h) by congruence; apply Hs]]).
Qed.

End TeamLemmas.

(** ** Claims about team reversion, initialisation, restore and the feed *)
Module TeamClaims2.
Import TeamElo Scenario ScenarioFacts TeamLemmas.



(** C2 (counterexample): [initialize_ratings] overwrites a rating that
    the opener had already moved: KC is put back to 1500. *)
Lemma initialize_ratings_overwrites :
  ratings (initialize_ratings default_config after_opener ["KC"]) !! "KC"
  <> ratings after_opener !! "KC".
Proof.
  destruct after_opener_facts as (nh & na & Hlt & Hkc & _ & _).
  unfold initialize_ratings. cbn [ratings fold_left]. rewrite lookup_insert_eq, Hkc.
  intros [= E]. cbn in Hlt. lra.
Qed.

(** C5 (counterexample): after the opener and the season-boundary
    [regress_to_mean], reloading the ledger gives KC its pre-reversion
    rating, not the live one. *)
Lemma reload_loses_reversion :
  get_rating default_config (reload (regress_to_mean default_config after_opener)) "KC"
  <> get_rating default_config (regress_to_mean default_config after_opener) "KC".
Proof.
  destruct after_opener_facts as (nh & na & Hlt & Hkc & Hbuf & Hhist).
  unfold get_rating. rewrite team_reload_ratings. cbn [regress_to_mean ratings history].
  rewrite Hhist, lookup_fmap, Hkc. cbn.
  rewrite lookup_insert_ne by done. rewrite lookup_insert_eq. cbn.
  intros E. lra.
Qed.

(** C6 (counterexample): in the feed [opener; unscored], the unscored
    2024 game is the first game of a new season, so processing it applies
    [regress_to_mean] and moves KC's rating. *)
Lemma unscored_game_moves_rating :
  fold_left (process_game default_config) [opener] (kc_buf, None) = (after_opener, Some 2023%Z) /\
  ratings (fst (process_game default_config (after_opener, Some 2023%Z) unscored)) !! "KC"
  <> ratings after_opener !! "KC".
Proof.
  split; [reflexivity|].
  destruct after_opener_facts as (nh & na & Hlt & Hkc & _ & _).
  cbn -[regress_to_mean after_opener]. cbn [regress_to_mean ratings].
  rewrite lookup_fmap, Hkc. cbn. intros [= E]. lra.
Qed.

(** C6: processing a game with a missing home or away score applies no Elo
    update and appends nothing to the ledger; the store changes only by
    the season-boundary [regress_to_mean], applied when the game is the
    first one of a new season, and not at all otherwise. *)
Theorem process_unscored_game (c : config) (elo : state) (cur : option Z) (g : game)
    (Hmissing : home_score g = None \/ away_score g = None) :
  process_game c (elo, cur) g =
    (match cur with
     | Some cs => if Z.eqb (season g) cs then elo else regress_to_mean c elo
     | None => elo
     end, Some (season g)) /\
  history (fst (process_game c (elo, cur) g)) = history elo /\
  (cur = None \/ cur = Some (season g) -> fst (process_game c (elo, cur) g) = elo).
Proof.
  assert (Hp : process_game c (elo, cur) g =
    (match cur with
     | Some cs => if Z.eqb (season g) cs then elo else regress_to_mean c elo
     | None => elo
     end, Some (season g))).
  { unfold process_game.
    destruct Hmissing as [-> | ->];
      [| destruct (home_score g)]; reflexivity. }
  rewrite Hp. split; [reflexivity|]. cbn [fst].
  split.
  - destruct cur as [cs|]; [destruct (Z.eqb (season g) cs)|]; reflexivity.
  - intros [-> | ->]; [reflexivity|]. by rewrite Z.eqb_refl.
Qed.

Lemma process_unscored_game_witness :
  (home_score unscored = None \/ away_score unscored = None) /\
  history (fst (process_game default_config (after_opener, Some 2023%Z) unscored))
  = history after_opener.
Proof.
  assert (H : home_score unscored = None \/ away_score unscored = None) by (left; reflexivity).
  split; [exact H|].
  exact (proj1 (proj2 (process_unscored_game default_config after_opener (Some 2023%Z) unscored H))).
Defined.

End TeamClaims2.

(** ** Lemmas on the player store *)
Module PlayerLemmas.
Import PlayerElo.

Lemma player_reload_ratings (s : state) : ratings (reload s) = fmap row_rating (groupby_last (history s)).
Proof.
  unfold reload, save_history, load_history.
  destruct (history s) as [|r h]; cbn; [reflexivity|].
  apply map_union_empty.
Qed.

Lemma ledger_agrees_empty (c : config) : ledger_agrees c empty_state.
Proof. intros p. cbn. rewrite lookup_empty. by left. Qed.

Lemma ledger_agrees_op (c : config) (s : state) (o : op) :
  ledger_agrees c s -> ledger_agrees c (run_op c s o).
Proof.
  intros Hs p. destruct o as [pid pos | pid opp perf snap se w]; cbn.
  - unfold initialize_player.
    destruct (ratings s !! pid) as [r0|] eqn:Er; [apply Hs|]. cbn [history ratings].
    specialize (Hs p).
    destruct (decide (p = pid)) as [->|Hne].
    + rewrite lookup_insert_eq. rewrite Er in Hs.
      destruct (groupby_last (history s) !! pid); [discriminate|]. by right.
    + by rewrite lookup_insert_ne by congruence.
  - unfold groupby_last. rewrite fold_left_app. cbn. fold (groupby_last (history s)).
    destruct (decide (p = pid)) as [->|Hne].
    + by rewrite !lookup_insert_eq.
    + rewrite !lookup_insert_ne by congruence. apply Hs.
Qed.

Lemma ledger_agrees_get_rating (c : config) (s : state) (p : string) :
  ledger_agrees c s -> get_rating c (reload s) p = get_rating c s p.
Proof.
  intros Hs. specialize (Hs p). unfold get_rating.
  rewrite player_reload_ratings, lookup_fmap.
  destruct (groupby_last (history s) !! p) as [r|]; cbn.
  - by rewrite Hs.
  - by destruct Hs as [-> | ->].
Qed.

End PlayerLemmas.

(** ** Restore fidelity *)
Module RestoreClaims.

(** C5: reloading the ledger reproduces [get_rating] for every entity when
    the store was built by update calls only: for teams,
    [initialize_ratings] on the fresh store followed by any sequence of
    [update_ratings]; for players, any interleaving of [initialize_player]
    and [update_rating].  The restored rating is that of the last ledger row
    of each entity. *)
Theorem reload_reproduces_updates (ct : TeamElo.config) (teams : list string)
    (games : list (string * string * Z * Z * Z * Z * bool))
    (cp : PlayerElo.config) (ops : list PlayerElo.op) :
  let st := fold_left (fun s '(h, a, hs, as_, se, w, po) =>
                         fst (TeamElo.update_ratings ct s h a hs as_ se w po))
              games (TeamElo.initialize_ratings ct TeamElo.empty_state teams) in
  let sp := fold_left (PlayerElo.run_op cp) ops PlayerElo.empty_state in
  (forall t, TeamElo.get_rating ct (TeamElo.reload st) t = TeamElo.get_rating ct st t) /\
  (forall p, PlayerElo.get_rating cp (PlayerElo.reload sp) p = PlayerElo.get_rating cp sp p).
Proof.
  cbv zeta. split.
  - assert (Hinv : forall s, TeamElo.ledger_agrees ct s ->
      TeamElo.ledger_agrees ct
        (fold_left (fun s '(h, a, hs, as_, se, w, po) =>
                      fst (TeamElo.update_ratings ct s h a hs as_ se w po)) games s)).
    { induction games as [|[[[[[[h a] hs] as_] se] w] po] games IH]; intros s Hs;
        [exact Hs|].
      cbn. apply IH. by apply TeamLemmas.ledger_agrees_update. }
    intros t.
    pose proof (Hinv _ (TeamLemmas.ledger_agrees_init ct teams) t) as Ht.
    unfold TeamElo.get_rating at 1. rewrite TeamLemmas.team_reload_ratings.
    symmetry. exact Ht.
  - assert (Hinv : forall s, PlayerElo.ledger_agrees cp s ->
      PlayerElo.ledger_agrees cp (fold_left (PlayerElo.run_op cp) ops s)).
    { induction ops as [|o ops IH]; intros s Hs; [exact Hs|].
      cbn. apply IH. by apply PlayerLemmas.ledger_agrees_op. }
    intros p. apply PlayerLemmas.ledger_agrees_get_rating.
    apply Hinv, PlayerLemmas.ledger_agrees_empty.
Qed.

End RestoreClaims.

(** ** Lemmas on [regress_inactive_players] *)
Module RegressLemmas.
Import PlayerElo.

Section Fold.
Variables (c : config) (cs cw : Z).

Lemma regress_player_some (rs : gmap string R) (p : string) (i : info) (r : R) :
  rs !! p = Some r ->
  regress_player c cs cw (Some rs) (p, i) = Some (<[p := reverted_rating c cs cw i r]> rs).
Proof.
  intros Hr. unfold regress_player, reverted_rating.
  destruct (last_update_week i) as [[ls lw]|]; [|by rewrite insert_id].
  destruct (Z.geb _ 4); [by rewrite Hr | by rewrite insert_id].
Qed.

Lemma fold_regress_none (l : list (string * info)) :
  fold_left (regress_player c cs cw) l None = None.
Proof. induction l as [|[p i] l IH]; [reflexivity | exact IH]. Qed.

Lemma fold_regress (l : list (string * info)) (rs : gmap string R) :
  NoDup l.*1 ->
  (forall p i, (p, i) ∈ l -> is_Some (rs !! p)) ->
  exists rs', fold_left (regress_player c cs cw) l (Some rs) = Some rs' /\
    forall p, rs' !! p =
      match (list_to_map l : gmap string info) !! p with
      | Some i => reverted_rating c cs cw i <$> rs !! p
      | None => rs !! p
      end.
Proof.
  revert rs. induction l as [|[q i] l IH]; intros rs Hnd Hsome.
  - exists rs. split; [reflexivity|]. intros p. by rewrite list_to_map_nil, lookup_empty.
  - cbn in Hnd. apply NoDup_cons in Hnd as [Hq Hnd].
    destruct (Hsome q i ltac:(constructor)) as [r Hr].
    destruct (IH (<[q := reverted_rating c cs cw i r]> rs) Hnd) as (rs' & Hf & Hl).
    { intros p j Hin. destruct (decide (p = q)) as [->|Hne].
      - rewrite lookup_insert_eq. by eexists.
      - rewrite lookup_insert_ne by congruence. apply (Hsome p j). by constructor. }
    exists rs'. split.
    + cbn [fold_left]. rewrite (regress_player_some rs q i r Hr). exact Hf.
    + intros p. rewrite Hl, list_to_map_cons.
      destruct (decide (p = q)) as [->|Hne].
      * rewrite lookup_insert_eq, Hr.
        rewrite not_elem_of_list_to_map_1 by exact Hq.
        by rewrite lookup_insert_eq.
      * rewrite !lookup_insert_ne by congruence. reflexivity.
Qed.

Lemma fold_regress_untouched (l : list (string * info)) (rs rs' : gmap string R) (p : string) :
  p ∉ l.*1 ->
  fold_left (regress_player c cs cw) l (Some rs) = Some rs' ->
  rs' !! p = rs !! p.
Proof.
  revert rs. induction l as [|[q i] l IH]; intros rs Hp Hf.
  - cbn in Hf. by injection Hf as ->.
  - cbn in Hp. apply not_elem_of_cons in Hp as [Hpq Hp].
    cbn [fold_left] in Hf. unfold regress_player at 2 in Hf.
    destruct (last_update_week i) as [[ls lw]|];
      [destruct (Z.geb _ 4); [destruct (rs !! q)|]|].
    all: try (rewrite fold_regress_none in Hf; discriminate).
    all: rewrite (IH _ Hp Hf); try reflexivity.
    rewrite lookup_insert_ne by congruence. reflexivity.
Qed.

End Fold.

End RegressLemmas.

(** ** Claims about initialisation and the player store *)
Module PlayerClaims.
Import PlayerElo Scenario RegressLemmas.

(** C2: [initialize_player] never changes a player that already has a
    rating (neither the rating nor its metadata), so a repeated call is a
    no-op; [initialize_ratings] sets every listed team to the base rating
    unconditionally and leaves the other teams alone, so calling it twice
    in a row equals calling it once. *)
Theorem initialize_idempotent (ct : TeamElo.config) (st : TeamElo.state)
    (teams : list string) (c : config) (s : state) (pid pos pos' : string) :
  (is_Some (ratings s !! pid) -> initialize_player c s pid pos' = s) /\
  initialize_player c (initialize_player c s pid pos) pid pos'
    = initialize_player c s pid pos /\
  TeamElo.initialize_ratings ct (TeamElo.initialize_ratings ct st teams) teams
    = TeamElo.initialize_ratings ct st teams /\
  (forall t, TeamElo.ratings (TeamElo.initialize_ratings ct st teams) !! t
             = if bool_decide (t ∈ teams) then Some (TeamElo.initial_rating ct)
               else TeamElo.ratings st !! t).
Proof.
  split; [|split; [|split]].
  - intros [r Hr]. unfold initialize_player. by rewrite Hr.
  - unfold initialize_player at 2 3.
    destruct (ratings s !! pid) as [r|] eqn:Hr.
    + unfold initialize_player. by rewrite Hr.
    + unfold initialize_player. cbn. by rewrite lookup_insert_eq.
  - unfold TeamElo.initialize_ratings. cbn. f_equal.
    apply map_eq. intros t. rewrite !TeamLemmas.fold_insert_lookup.
    by destruct (bool_decide (t ∈ teams)).
  - intros t. unfold TeamElo.initialize_ratings. cbn.
    apply TeamLemmas.fold_insert_lookup.
Qed.

Lemma initialize_idempotent_witness :
  is_Some (ratings restored_player !! "P") /\
  initialize_player default_config restored_player "P" "WR" = restored_player.
Proof.
  assert (H : is_Some (ratings restored_player !! "P")) by (eexists; reflexivity).
  split; [exact H|].
  exact (proj1 (initialize_idempotent TeamElo.default_config TeamElo.empty_state []
                  default_config restored_player "P" "QB" "WR") H).
Defined.

(** C3 (counterexample): for a player id without metadata the K-factor is
    20 whatever the snap share, so the rating changes at snap shares 1/2
    and 1 are equal, which no base K-factor times the snap share gives. *)
Lemma k_factor_ignores_snap_share :
  ~ exists kpos : R,
    snd (update_rating default_config empty_state "P" 1000 1 (1 / 2) 2024 1) - 1000
      = kpos * (1 / 2) * (1 - 1 / 2) /\
    snd (update_rating default_config empty_state "P" 1000 1 1 2024 1) - 1000
      = kpos * 1 * (1 - 1 / 2).
Proof.
  intros (k & H1 & H2).
  assert (E : Rpower 10 ((1000 - 1000) / 400) = 1).
  { replace ((1000 - 1000) / 400) with 0 by field. apply Rpower_O. lra. }
  assert (Hr : ratings empty_state !! "P" = None) by reflexivity.
  assert (Hi : player_info empty_state !! "P" = None) by reflexivity.
  unfold update_rating, get_rating, get_k_factor in H1, H2.
  rewrite Hr, Hi in H1, H2. cbn -[Rpower IZR Rmult Rplus Rminus Rdiv] in H1, H2.
  rewrite E in H1, H2.
  replace (1 / (1 + 1)) with (1 / 2) in H1, H2 by field.
  lra.
Qed.

(** C3: [update_rating] stores [R + K * (performance_score - E)] with [E]
    the logistic expectation against [opponent_strength]; for a player with
    metadata [K] is the base K-factor of its position ([20] for a position
    missing from the table) times [snap_share], and for a player id without
    metadata [K] is [20] whatever the snap share. *)
Theorem update_rating_change (c : config) (s : state) (pid : string)
    (opp perf snap : R) (se w : Z) :
  let res := update_rating c s pid opp perf snap se w in
  ratings (fst res) !! pid = Some (snd res) /\
  snd res - get_rating c s pid
    = get_k_factor c s pid snap * (perf - logistic (get_rating c s pid) opp) /\
  get_k_factor c s pid snap
    = match player_info s !! pid with
      | Some i => default 20 (k_factors c !! position i) * snap
      | None => 20
      end.
Proof.
  cbv zeta. split; [|split].
  - unfold update_rating. cbn. apply lookup_insert_eq.
  - unfold update_rating, logistic. cbn. ring.
  - reflexivity.
Qed.

(** C4 (code_bug): with two quarterbacks at the base rating 1000 playing
    every snap, [compute_team_adjustment] subtracts one base rating from
    the position sum and returns 25, where subtracting [len * BASE] gives 0. *)
Theorem team_adjustment_two_qbs :
  compute_team_adjustment default_config empty_state two_qbs = 25 /\
  team_adjustment_spec default_config empty_state two_qbs = 0.
Proof.
  unfold compute_team_adjustment, team_adjustment_spec, clip.
  cbn -[IZR Rmult Rplus Rminus Rdiv Rmin Rmax].
  assert (Hg : forall p, get_rating default_config empty_state p = 1000) by reflexivity.
  rewrite !Hg. split.
  - rewrite Rmax_left by lra. rewrite Rmin_left by lra. lra.
  - rewrite Rmax_left by lra. rewrite Rmin_left by lra. lra.
Qed.

(** C7 (counterexample): a player restored with last update week 1 of
    2024 is reverted by a pass at week 10 of 2023, although the
    cross-season count [(2023 - 2024) * 18 + 10 - 1] is below 4: for an
    earlier season the code counts [10 - 1] weeks. *)
Lemma regress_inactive_earlier_season :
  ratings restored_player !! "P" = Some 1100 /\
  ((2023 - 2024) * 18 + 10 - 1 < 4)%Z /\
  exists s', regress_inactive_players default_config restored_player 2023 10 = Some s' /\
             ratings s' !! "P" <> Some 1100.
Proof.
  split; [reflexivity|]. split; [lia|].
  eexists. split; [reflexivity|].
  cbn -[IZR Rmult Rplus Rminus Rdiv]. rewrite lookup_insert_eq.
  intros [= E]. lra.
Qed.

(** C7: when every player with metadata has a rating, the inactivity pass
    succeeds, keeps the metadata and the ledger, and leaves each player
    with metadata and rating [r] at: [r] if never updated; otherwise, with
    [elapsed = (current_season - last_season) * 18 + current_week - last_week]
    when [current_season >= last_season] and
    [elapsed = current_week - last_week] when [current_season < last_season],
    [r * (1 - f) + BASE * f] if [elapsed >= 4] and [r] if not.  Players
    without metadata keep their rating. *)
Theorem regress_inactive_players_spec (c : config) (s : state) (cs cw : Z)
    (Hwf : forall p, is_Some (player_info s !! p) -> is_Some (ratings s !! p)) :
  exists s', regress_inactive_players c s cs cw = Some s' /\
    player_info s' = player_info s /\ history s' = history s /\
    forall p, ratings s' !! p =
      match player_info s !! p, ratings s !! p with
      | Some i, Some r =>
          match last_update_week i with
          | None => Some r
          | Some (ls, lw) =>
              let elapsed := if Z.ltb cs ls then (cw - lw)%Z
                             else ((cs - ls) * 18 + cw - lw)%Z in
              if Z.geb elapsed 4
              then Some (r * (1 - reversion_factor c) + initial_rating c * reversion_factor c)
              else Some r
          end
      | _, r => r
      end.
Proof.
  unfold regress_inactive_players.
  destruct (fold_regress c cs cw (map_to_list (player_info s)) (ratings s)
              (NoDup_fst_map_to_list _)) as (rs' & Hf & Hl).
  { intros p i Hin. apply elem_of_map_to_list in Hin. apply Hwf. by eexists. }
  rewrite Hf. eexists. split; [reflexivity|]. cbn. split; [reflexivity|split; [reflexivity|]].
  intros p. rewrite Hl, list_to_map_to_list.
  destruct (player_info s !! p) as [i|]; [|reflexivity].
  destruct (ratings s !! p) as [r|]; cbn; [|reflexivity].
  unfold reverted_rating, weeks_inactive.
  destruct (last_update_week i) as [[ls lw]|]; [|reflexivity].
  rewrite Z.gtb_ltb.
  destruct (Z.ltb ls cs) eqn:G; destruct (Z.ltb cs ls) eqn:L.
  - apply Z.ltb_lt in G, L. lia.
  - by destruct (Z.geb _ 4).
  - by destruct (Z.geb _ 4).
  - apply Z.ltb_ge in G, L.
    replace ((cs - ls) * 18 + cw - lw)%Z with (cw - lw)%Z by lia.
    by destruct (Z.geb _ 4).
Qed.

Lemma regress_inactive_players_spec_witness :
  (forall p, is_Some (player_info restored_player !! p) -> is_Some (ratings restored_player !! p)) /\
  exists s', regress_inactive_players default_config restored_player 2024 6 = Some s' /\
    ratings s' !! "P" = Some (1100 * (1 - 25 / 100) + 1000 * (25 / 100)).
Proof.
  assert (Hwf : forall p, is_Some (player_info restored_player !! p) ->
                          is_Some (ratings restored_player !! p)).
  { intros p [i Hi]. destruct (decide (p = "P")) as [->|Hne]; [eexists; reflexivity|].
    exfalso. cbn in Hi.
    rewrite map_union_empty, lookup_fmap, lookup_insert_ne in Hi by congruence.
    discriminate. }
  split; [exact Hwf|].
  destruct (regress_inactive_players_spec default_config restored_player 2024 6 Hwf)
    as (s' & Hs' & _ & _ & Hp).
  exists s'. split; [exact Hs'|]. rewrite Hp. reflexivity.
Defined.

(** C10: updating a player id that has no metadata stores the new rating
    but creates no metadata, appends a ledger row with position
    ["UNKNOWN"]; afterwards [initialize_player] for that id changes
    nothing, and no inactivity pass changes its rating. *)
Theorem update_unknown_player (c : config) (s : state) (pid : string)
    (opp perf snap : R) (se w : Z)
    (Hnew : player_info s !! pid = None) :
  let s' := fst (update_rating c s pid opp perf snap se w) in
  let nr := snd (update_rating c s pid opp perf snap se w) in
  ratings s' !! pid = Some nr /\
  player_info s' !! pid = None /\
  history s' = history s ++ [(se, w, pid, "UNKNOWN", nr)] /\
  (forall pos, initialize_player c s' pid pos = s') /\
  (forall cs cw s'', regress_inactive_players c s' cs cw = Some s'' ->
                     ratings s'' !! pid = Some nr).
Proof.
  cbv zeta.
  assert (Hr : ratings (fst (update_rating c s pid opp perf snap se w)) !! pid
               = Some (snd (update_rating c s pid opp perf snap se w))).
  { unfold update_rating. cbn. apply lookup_insert_eq. }
  assert (Hi : player_info (fst (update_rating c s pid opp perf snap se w)) !! pid = None).
  { unfold update_rating. cbn. by rewrite Hnew. }
  split; [exact Hr|]. split; [exact Hi|]. split.
  - unfold update_rating. cbn. by rewrite Hnew, Hnew.
  - split.
    + intros pos. unfold initialize_player. by rewrite Hr.
    + intros cs cw s'' Hreg. unfold regress_inactive_players in Hreg.
      destruct (fold_left _ _ _) as [rs'|] eqn:Hf; [|discriminate].
      injection Hreg as <-. cbn.
      assert (Hnot : pid ∉ (map_to_list
                (player_info (fst (update_rating c s pid opp perf snap se w)))).*1).
      { intros Hin. apply list_elem_of_fmap in Hin as ([k v] & Hk & Hkv).
        apply elem_of_map_to_list in Hkv. cbn in Hk. subst k. congruence. }
      rewrite (fold_regress_untouched c cs cw _ _ _ pid Hnot Hf). exact Hr.
Qed.

Lemma update_unknown_player_witness :
  player_info empty_state !! "P" = None /\
  history (fst (update_rating default_config empty_state "P" 1000 (7 / 10) 1 2024 1))
  = [(2024%Z, 1%Z, "P", "UNKNOWN",
      snd (update_rating default_config empty_state "P" 1000 (7 / 10) 1 2024 1))].
Proof.
  assert (H : player_info empty_state !! "P" = None) by reflexivity.
  split; [exact H|].
  exact (proj1 (proj2 (proj2 (update_unknown_player default_config empty_state "P"
                                1000 (7 / 10) 1 2024 1 H)))).
Defined.

End PlayerClaims.

(** ** Further lemmas on the team store *)
Module TeamLemmas2.
Import TeamElo.

Lemma mov_multiplier_zero : mov_multiplier 0 = 0.
Proof. unfold mov_multiplier. cbn. exact ln_1. Qed.



Lemma groupby_fold_absent (l : list row) (m : gmap string R) (t : string) :
  t ∉ row_team <$> l ->
  fold_left (fun m '(_, _, t, r) => <[t := r]> m) l m !! t = m !! t.
Proof.
  revert m. induction l as [|[[[se w] t'] r] l IH]; intros m Ht; [reflexivity|].
  cbn in Ht. apply not_elem_of_cons in Ht as [Htt Ht].
  cbn [fold_left]. rewrite IH by exact Ht.
  unfold row_team in Htt; cbn in Htt. by rewrite lookup_insert_ne by congruence.
Qed.

Lemma process_game_history_length (c : config) (st : state * option Z) (g : game) :
  length (history (fst (process_game c st g)))
  = (length (history (fst st)) + if has_scores g then 2 else 0)%nat.
Proof.
  destruct st as [e cur]. unfold process_game, has_scores.
  assert (Hr : history (match cur with
                        | Some cs => if Z.eqb (season g) cs then e else regress_to_mean c e
                        | None => e end) = history e).
  { destruct cur as [cs|]; [destruct (Z.eqb _ cs)|]; reflexivity. }
  destruct (home_score g) as [hs|], (away_score g) as [as_|]; cbn [fst];
    rewrite ?Hr; try lia.
  unfold update_ratings.
  destruct (Z.gtb hs as_); [|destruct (Z.ltb hs as_)]; cbn [fst history];
    rewrite length_app, Hr; cbn; lia.
Qed.

Lemma fold_process_game_length (c : config) (gs : list game) (st : state * option Z) :
  length (history (fst (fold_left (process_game c) gs st)))
  = (length (history (fst st)) + 2 * length (List.filter has_scores gs))%nat.
Proof.
  revert st. induction gs as [|g gs IH]; intros st; cbn [fold_left]; [cbn; lia|].
  rewrite IH, process_game_history_length. cbn [List.filter].
  destruct (has_scores g); cbn [length]; lia.
Qed.

End TeamLemmas2.

(** ** Further properties of the team store *)
Module TeamExtras.
Import TeamElo TeamLemmas2.

(** A tied game ([home_score = away_score]) changes no rating: the margin
    multiplier is [ln 1 = 0], so both returned ratings are the old ones and
    the store holds them afterwards; the ledger still gains two rows. *)
Theorem update_ratings_tie (c : config) (s : state) (home away : string)
    (sc season week : Z) (po : bool) :
  let '(s', (nh, na)) := update_ratings c s home away sc sc season week po in
  nh = get_rating c s home /\ na = get_rating c s away /\
  get_rating c s' home = get_rating c s home /\
  get_rating c s' away = get_rating c s away /\
  length (history s') = (length (history s) + 2)%nat.
Proof.
  unfold update_ratings.
  rewrite Z.gtb_ltb, Z.ltb_irrefl, Z.sub_diag. cbn [Z.abs].
  change (Z.abs 0) with 0%Z. rewrite mov_multiplier_zero.
  rewrite !Rmult_0_r, !Rmult_0_l, !Rplus_0_r.
  cbn [fst snd history]. rewrite length_app; cbn [length].
  split; [reflexivity | split; [reflexivity|]].
  destruct (decide (home = away)) as [->|Hne].
  - unfold get_rating; cbn [ratings]. rewrite !lookup_insert_eq; cbn.
    repeat split; lia.
  - unfold get_rating; cbn [ratings].
    rewrite lookup_insert_eq, lookup_insert_ne, lookup_insert_eq by congruence; cbn.
    repeat split; lia.
Qed.




(** [update_ratings] writes only the ratings of the two teams of the game:
    every other team keeps its stored rating (or stays unrated), and the
    ledger grows by exactly two rows. *)
Theorem update_ratings_frame (c : config) (s : state) (home away : string)
    (hs as_ season week : Z) (po : bool) (t : string)
    (Hh : t <> home) (Ha : t <> away) :
  ratings (fst (update_ratings c s home away hs as_ season week po)) !! t = ratings s !! t /\
  length (history (fst (update_ratings c s home away hs as_ season week po)))
    = (length (history s) + 2)%nat.
Proof.
  unfold update_ratings.
  destruct (Z.gtb hs as_); [|destruct (Z.ltb hs as_)]; cbn [fst ratings history];
    rewrite !lookup_insert_ne by congruence; rewrite length_app; cbn; split; auto; lia.
Qed.

Lemma update_ratings_frame_witness :
  ratings (fst (update_ratings default_config Scenario.kc_buf "KC" "BUF" 27 24 2024 1 false))
    !! "SF" = ratings Scenario.kc_buf !! "SF".
Proof.
  apply (proj1 (update_ratings_frame default_config Scenario.kc_buf "KC" "BUF"
                  27 24 2024 1 false "SF" ltac:(done) ltac:(done))).
Defined.





(** Loading a file overlays the stored ratings: a team of the file gets
    the rating of its last row in the file, a team absent from the file
    keeps its stored rating (or stays unrated); the ledger becomes the
    file. *)
Theorem load_history_overlay (s : state) (df : list row) (t : string) :
  history (load_history s (Some df)) = df /\
  (forall pre post se w r, df = pre ++ (se, w, t, r) :: post ->
     t ∉ row_team <$> post -> ratings (load_history s (Some df)) !! t = Some r) /\
  (t ∉ row_team <$> df -> ratings (load_history s (Some df)) !! t = ratings s !! t).
Proof.
  unfold load_history, groupby_last; cbn [ratings history].
  split; [reflexivity | split].
  - intros pre post se w r -> Ht.
    apply lookup_union_Some_l.
    rewrite fold_left_app. cbn [fold_left].
    rewrite groupby_fold_absent by exact Ht. apply lookup_insert_eq.
  - intros Ht. rewrite lookup_union, groupby_fold_absent, lookup_empty by exact Ht.
    by destruct (ratings s !! t).
Qed.

Lemma load_history_overlay_witness :
  ratings (load_history Scenario.kc_buf
     (Some [(2023%Z, 1%Z, "KC", 1510); (2023%Z, 2%Z, "KC", 1520)])) !! "KC" = Some 1520.
Proof.
  apply (proj1 (proj2 (load_history_overlay Scenario.kc_buf
     [(2023%Z, 1%Z, "KC", 1510); (2023%Z, 2%Z, "KC", 1520)] "KC"))
     [(2023%Z, 1%Z, "KC", 1510)] [] 2023%Z 2%Z 1520); [reflexivity|].
  apply not_elem_of_nil.
Defined.

(** [compute_team_elo_historical] saves two ledger rows per game with both
    scores present and none for the others; it saves nothing (no file is
    written) exactly when no game has both scores, e.g. for an empty feed. *)
Theorem compute_historical_row_count (c : config) (games : list game) :
  length (default [] (compute_team_elo_historical c games))
    = (2 * length (List.filter has_scores games))%nat /\
  (compute_team_elo_historical c games = None <-> List.filter has_scores games = []).
Proof.
  unfold compute_team_elo_historical.
  pose proof (fold_process_game_length c games
    (initialize_ratings c empty_state (map home_team_id games ++ map away_team_id games), None))
    as H. cbn [fst history initialize_ratings empty_state length] in H.
  unfold save_history.
  destruct (history _) as [|r h]; cbn [default Datatypes.id length] in *.
  - split; [lia|]. split; [intros _|reflexivity].
    apply length_zero_iff_nil. lia.
  - split; [lia|]. split; [discriminate|].
    intros Hf. rewrite Hf in H. cbn in H. lia.
Qed.

End TeamExtras.

(** ** Further lemmas on the player store *)
Module PlayerLemmas2.
Import PlayerElo.

Lemma clip_bounds (x : R) : -100 <= clip x (-100) 100 <= 100.
Proof. unfold clip, Rmin, Rmax. repeat destruct Rle_dec; lra. Qed.

Lemma filter_listed (roster : list roster_row) (pos : string) :
  existsb (String.eqb pos) (map fst position_weights) = true ->
  List.filter (fun r => String.eqb (r_position r) pos)
    (List.filter (fun r => existsb (String.eqb (r_position r)) (map fst position_weights)) roster)
  = List.filter (fun r => String.eqb (r_position r) pos) roster.
Proof.
  intros Hpos. induction roster as [|r roster IH]; [reflexivity|].
  cbn [List.filter].
  destruct (String.eqb (r_position r) pos) eqn:E.
  - apply String.eqb_eq in E. rewrite E, Hpos. cbn [List.filter].
    rewrite E, String.eqb_refl, IH. reflexivity.
  - destruct (existsb (String.eqb (r_position r)) (map fst position_weights));
      cbn [List.filter]; rewrite ?E; exact IH.
Qed.

Lemma player_groupby_absent (l : list row) (m : gmap string row) (p : string) :
  p ∉ row_player <$> l ->
  fold_left (fun m (r : row) => let '(_, _, pid, _, _) := r in <[pid := r]> m) l m !! p
  = m !! p.
Proof.
  revert m. induction l as [|[[[[se w] q] pos] r] l IH]; intros m Hp; [reflexivity|].
  cbn in Hp. apply not_elem_of_cons in Hp as [Hpq Hp].
  cbn [fold_left]. rewrite IH by exact Hp.
  unfold row_player in Hpq; cbn in Hpq. by rewrite lookup_insert_ne by congruence.
Qed.

Lemma info_rated_empty : info_rated empty_state.
Proof. intros p Hp. cbn in Hp. rewrite lookup_empty in Hp. by destruct Hp. Qed.

Lemma info_rated_load (s : state) (file : option (list row)) :
  info_rated s -> info_rated (load_history s file).
Proof.
  intros Hs p Hp. destruct file as [df|]; [|by apply Hs].
  cbn [load_history player_info ratings] in *.
  rewrite lookup_union, lookup_fmap in Hp. rewrite lookup_union, lookup_fmap.
  destruct (groupby_last df !! p); cbn in *.
  - destruct (ratings s !! p); by eexists.
  - destruct (player_info s !! p) eqn:E; [|by destruct Hp].
    destruct (Hs p) as [r ->]; [by eexists|]. by eexists.
Qed.

Lemma info_rated_op (c : config) (s : state) (o : op) :
  info_rated s -> info_rated (run_op c s o).
Proof.
  intros Hs p Hp. destruct o as [pid pos | pid opp perf snap se w]; cbn [run_op] in *.
  - unfold initialize_player in *.
    destruct (ratings s !! pid) eqn:Er; [by apply Hs|]. cbn [ratings player_info] in *.
    destruct (decide (p = pid)) as [->|Hne].
    + rewrite lookup_insert_eq. by eexists.
    + rewrite lookup_insert_ne in Hp by congruence.
      rewrite lookup_insert_ne by congruence. by apply Hs.
  - unfold update_rating in *. cbn [fst ratings player_info] in *.
    destruct (decide (p = pid)) as [->|Hne].
    + rewrite lookup_insert_eq. by eexists.
    + rewrite lookup_insert_ne by congruence. apply Hs.
      destruct (player_info s !! pid); [|exact Hp].
      by rewrite lookup_insert_ne in Hp by congruence.
Qed.

End PlayerLemmas2.

(** ** Further properties of the player store *)
Module PlayerExtras.
Import PlayerElo PlayerLemmas2 RegressLemmas.

(** For a player with metadata, [update_rating] stores the returned rating,
    keeps the position, adds one to [games], sets [last_update_week] to
    the game's [(season, week)], appends one ledger row carrying that
    position, and touches no other player. *)
Theorem update_rating_known_player (c : config) (s : state) (pid : string)
    (opp perf snap : R) (season week : Z) (i : info)
    (Hi : player_info s !! pid = Some i) :
  let '(s', nr) := update_rating c s pid opp perf snap season week in
  ratings s' !! pid = Some nr /\
  player_info s' !! pid = Some {| position := position i; games := (games i + 1)%Z;
                                  last_update_week := Some (season, week) |} /\
  history s' = history s ++ [(season, week, pid, position i, nr)] /\
  (forall q, q <> pid ->
     ratings s' !! q = ratings s !! q /\ player_info s' !! q = player_info s !! q).
Proof.
  unfold update_rating. rewrite Hi. cbn [ratings player_info history].
  rewrite !lookup_insert_eq. cbn [position].
  split; [reflexivity | split; [reflexivity | split; [reflexivity|]]].
  intros q Hq. rewrite !lookup_insert_ne by congruence. split; reflexivity.
Qed.

Lemma update_rating_known_player_witness :
  player_info (fst (update_rating default_config Scenario.mahomes "P_MAHOMES" 1000 (7 / 10) 1
                      2024 1)) !! "P_MAHOMES"
  = Some {| position := "QB"; games := 1; last_update_week := Some (2024%Z, 1%Z) |}.
Proof.
  pose proof (update_rating_known_player default_config Scenario.mahomes "P_MAHOMES"
                1000 (7 / 10) 1 2024 1
                {| position := "QB"; games := 0; last_update_week := None |}
                ltac:(reflexivity)) as H.
  destruct (update_rating default_config Scenario.mahomes "P_MAHOMES" 1000 (7 / 10) 1 2024 1)
    as [s' nr].
  exact (proj1 (proj2 H)).
Defined.

(** With a positive K (for a player with metadata: a positive position K
    and a positive snap share), [update_rating] raises the rating exactly
    when the performance score beats the logistic expectation against the
    opponent, and leaves it unchanged exactly when the two are equal. *)
Theorem update_rating_direction (c : config) (s : state) (pid : string)
    (opp perf snap : R) (season week : Z) (Hk : 0 < get_k_factor c s pid snap) :
  (get_rating c s pid < snd (update_rating c s pid opp perf snap season week)
     <-> logistic (get_rating c s pid) opp < perf) /\
  (snd (update_rating c s pid opp perf snap season week) = get_rating c s pid
     <-> perf = logistic (get_rating c s pid) opp).
Proof.
  unfold update_rating. cbn [snd].
  change (1 / (1 + Rpower 10 ((opp - get_rating c s pid) / 400)))
    with (logistic (get_rating c s pid) opp).
  set (E := logistic (get_rating c s pid) opp).
  set (K := get_k_factor c s pid snap) in *.
  split; split; intros H.
  - apply Rmult_lt_reg_l with K; [exact Hk|]. lra.
  - pose proof (Rmult_lt_0_compat K (perf - E) Hk ltac:(lra)). lra.
  - assert (Hz : K * (perf - E) = 0) by lra.
    apply Rmult_integral in Hz as [Hz|Hz]; lra.
  - rewrite H. ring.
Qed.

(** [test_player_elo]: the quarterback just initialised at 1000 who scores
    0.7 against a 1000-rated opponent with full snaps ends above 1000. *)
Lemma update_rating_direction_witness :
  1000 < snd (update_rating default_config Scenario.mahomes "P_MAHOMES" 1000 (7 / 10) 1 2024 1).
Proof.
  assert (Hr : get_rating default_config Scenario.mahomes "P_MAHOMES" = 1000) by reflexivity.
  assert (Hk : 0 < get_k_factor default_config Scenario.mahomes "P_MAHOMES" 1).
  { assert (Hq : k_factors default_config !! "QB" = Some 32) by reflexivity.
    unfold get_k_factor.
    change (player_info Scenario.mahomes !! "P_MAHOMES")
      with (Some {| position := "QB"; games := 0; last_update_week := None |}).
    cbn [position]. rewrite Hq. cbn. lra. }
  pose proof (proj1 (update_rating_direction default_config Scenario.mahomes "P_MAHOMES"
                       1000 (7 / 10) 1 2024 1 Hk)) as H.
  rewrite Hr in H. apply H.
  unfold logistic. rewrite Rminus_diag.
  replace (0 / 400) with 0 by field. rewrite Rpower_O by lra. lra.
Defined.

(** A player with metadata who played no snaps ([snap_share = 0]) gets
    K = 0: the rating is unchanged, yet [games] grows by one and
    [last_update_week] moves to the game, which restarts the inactivity
    count of [regress_inactive_players]. *)
Theorem update_rating_zero_snap (c : config) (s : state) (pid : string)
    (opp perf : R) (season week : Z) (i : info)
    (Hi : player_info s !! pid = Some i) :
  let '(s', nr) := update_rating c s pid opp perf 0 season week in
  nr = get_rating c s pid /\ get_rating c s' pid = get_rating c s pid /\
  player_info s' !! pid = Some {| position := position i; games := (games i + 1)%Z;
                                  last_update_week := Some (season, week) |}.
Proof.
  unfold update_rating, get_k_factor. rewrite Hi. cbn [ratings player_info snd].
  rewrite Rmult_0_r, Rmult_0_l, Rplus_0_r.
  split; [reflexivity|].
  unfold get_rating; cbn [ratings]. rewrite !lookup_insert_eq. cbn.
  split; reflexivity.
Qed.

Lemma update_rating_zero_snap_witness :
  snd (update_rating default_config Scenario.mahomes "P_MAHOMES" 1200 1 0 2024 1)
  = get_rating default_config Scenario.mahomes "P_MAHOMES".
Proof.
  pose proof (update_rating_zero_snap default_config Scenario.mahomes "P_MAHOMES"
                1200 1 2024 1
                {| position := "QB"; games := 0; last_update_week := None |}
                ltac:(reflexivity)) as H.
  destruct (update_rating default_config Scenario.mahomes "P_MAHOMES" 1200 1 0 2024 1)
    as [s' nr].
  exact (proj1 H).
Defined.

(** [compute_team_adjustment] always lies in [-100, 100] (the [np.clip]),
    and an empty roster gives 0. *)
Theorem team_adjustment_bounds (c : config) (s : state) (roster : list roster_row) :
  -100 <= compute_team_adjustment c s roster <= 100 /\
  compute_team_adjustment c s [] = 0.
Proof.
  split; [apply clip_bounds|].
  unfold compute_team_adjustment, position_weights. cbn.
  unfold clip, Rmin, Rmax. repeat destruct Rle_dec; lra.
Qed.

(** Roster rows whose position is not one of the nine weighted positions
    (a kicker, say) never change [compute_team_adjustment]: dropping them
    gives the same adjustment. *)
Theorem team_adjustment_ignores_unlisted (c : config) (s : state)
    (roster : list roster_row) :
  compute_team_adjustment c s roster
  = compute_team_adjustment c s
      (List.filter (fun r => existsb (String.eqb (r_position r)) (map fst position_weights))
         roster).
Proof.
  unfold compute_team_adjustment.
  set (PW := map fst position_weights).
  unfold position_weights. cbn [fold_left]. subst PW.
  rewrite !filter_listed by reflexivity. reflexivity.
Qed.

(** Loading a file overlays the store: a player of the file gets the
    rating and position of its last row, [games = 0] and
    [last_update_week = (season, week)] of that row; a player absent from
    the file keeps its rating and metadata. *)
Theorem player_load_history_overlay (s : state) (df : list row) (p : string) :
  (forall pre post se w pos r, df = pre ++ (se, w, p, pos, r) :: post ->
     p ∉ row_player <$> post ->
     ratings (load_history s (Some df)) !! p = Some r /\
     player_info (load_history s (Some df)) !! p
       = Some {| position := pos; games := 0; last_update_week := Some (se, w) |}) /\
  (p ∉ row_player <$> df ->
     ratings (load_history s (Some df)) !! p = ratings s !! p /\
     player_info (load_history s (Some df)) !! p = player_info s !! p).
Proof.
  unfold load_history, groupby_last; cbn [ratings player_info].
  split.
  - intros pre post se w pos r -> Hp.
    rewrite !lookup_union, !lookup_fmap, fold_left_app. cbn [fold_left].
    rewrite player_groupby_absent by exact Hp. rewrite lookup_insert_eq. cbn.
    destruct (ratings s !! p), (player_info s !! p); split; reflexivity.
  - intros Hp. rewrite !lookup_union, !lookup_fmap, player_groupby_absent, lookup_empty
      by exact Hp. cbn.
    destruct (ratings s !! p), (player_info s !! p); split; reflexivity.
Qed.

Lemma player_load_history_overlay_witness :
  ratings (load_history empty_state
     (Some [(2024%Z, 1%Z, "P", "QB", 1100); (2024%Z, 2%Z, "P", "QB", 1120)])) !! "P"
  = Some 1120.
Proof.
  apply (proj1 (proj1 (player_load_history_overlay empty_state
     [(2024%Z, 1%Z, "P", "QB", 1100); (2024%Z, 2%Z, "P", "QB", 1120)] "P")
     [(2024%Z, 1%Z, "P", "QB", 1100)] [] 2024%Z 2%Z "QB" 1120 ltac:(reflexivity)
     (not_elem_of_nil "P"))).
Defined.

(** [regress_inactive_players] never raises a [KeyError] on a store built
    the way the code builds it: a fresh [PlayerElo()], optionally loaded
    from a ledger file, then any sequence of [initialize_player] and
    [update_rating] calls. *)
Theorem regress_inactive_never_fails (c : config) (file : option (list row))
    (ops : list op) (cs cw : Z) :
  is_Some (regress_inactive_players c
             (fold_left (run_op c) ops (load_history empty_state file)) cs cw).
Proof.
  assert (Hinv : forall s, info_rated s -> info_rated (fold_left (run_op c) ops s)).
  { induction ops as [|o ops IH]; intros s Hs; [exact Hs|].
    cbn [fold_left]. apply IH, info_rated_op, Hs. }
  pose proof (Hinv _ (info_rated_load _ file info_rated_empty)) as Hs.
  set (s := fold_left (run_op c) ops (load_history empty_state file)) in *.
  unfold regress_inactive_players.
  destruct (fold_regress c cs cw (map_to_list (player_info s)) (ratings s))
    as (rs' & -> & _).
  - apply NoDup_fst_map_to_list.
  - intros p i Hin. apply Hs. apply elem_of_map_to_list in Hin. by eexists.
  - by eexists.
Qed.

End PlayerExtras.
Module F64Lemmas.
Import F64.

Lemma bpow_pos (e : Z) : 0 < bpow e.
Proof. apply powerRZ_lt. lra. Qed.

Lemma bpow_add (e1 e2 : Z) : bpow (e1 + e2) = bpow e1 * bpow e2.
Proof. apply powerRZ_add. lra. Qed.

Lemma bpow_nonneg_IZR (j : Z) : (0 <= j)%Z -> bpow j = IZR (2 ^ j).
Proof.
  intros Hj. destruct j as [|p|p]; [reflexivity| |lia].
  unfold bpow. rewrite <- Zpower_pos_powerRZ. reflexivity.
Qed.

Lemma bpow_le (e1 e2 : Z) : (e1 <= e2)%Z -> bpow e1 <= bpow e2.
Proof.
  intros He. replace e2 with (e1 + (e2 - e1))%Z by lia.
  rewrite bpow_add, (bpow_nonneg_IZR (e2 - e1)) by lia.
  assert (1 <= IZR (2 ^ (e2 - e1))).
  { apply IZR_le. pose proof (Z.pow_pos_nonneg 2 (e2 - e1)). lia. }
  pose proof (bpow_pos e1). nra.
Qed.

Lemma bpow_lt (e1 e2 : Z) : (e1 < e2)%Z -> bpow e1 < bpow e2.
Proof.
  intros He. replace e2 with ((e1 + 1) + (e2 - e1 - 1))%Z by lia.
  rewrite !bpow_add. pose proof (bpow_le 0 (e2 - e1 - 1) ltac:(lia)).
  change (bpow 0) with 1 in *. change (bpow 1) with (2 * 1).
  pose proof (bpow_pos e1). nra.
Qed.

Lemma is_f64_opp (z : R) : is_f64 z -> is_f64 (- z).
Proof.
  intros (m & e & -> & Hm & He). exists (- m)%Z, e.
  rewrite opp_IZR. split; [ring | split; [lia | exact He]].
Qed.

Lemma is_f64_int (m : Z) : (Z.abs m < 2 ^ 53)%Z -> is_f64 (IZR m).
Proof. intros Hm. exists m, 0%Z. split; [change (bpow 0) with 1; ring | lia]. Qed.

Lemma is_f64_bpow (e : Z) : (-1074 <= e <= 971)%Z -> is_f64 (bpow e).
Proof. intros He. exists 1%Z, e. split; [ring | lia]. Qed.

(** Every binary64 value of magnitude at least [2^k] is a multiple of [2^(k-52)]. *)
Lemma f64_grid (z : R) (k : Z) :
  is_f64 z -> bpow k <= Rabs z -> exists n, z = IZR n * bpow (k - 52).
Proof.
  intros (m & e & -> & Hm & He) Hk.
  destruct (Z_lt_le_dec e (k - 52)) as [Hlt|Hge].
  - exfalso.
    rewrite Rabs_mult, (Rabs_pos_eq (bpow e)) in Hk by (left; apply bpow_pos).
    rewrite Rabs_Zabs in Hk.
    assert (Hm' : IZR (Z.abs m) < IZR (2 ^ 53)) by (apply IZR_lt; lia).
    rewrite <- bpow_nonneg_IZR in Hm' by lia.
    pose proof (bpow_pos e).
    assert (IZR (Z.abs m) * bpow e < bpow 53 * bpow e) by nra.
    rewrite <- bpow_add in H0. pose proof (bpow_le (53 + e) k ltac:(lia)). lra.
  - exists (m * 2 ^ (e - (k - 52)))%Z.
    rewrite mult_IZR, <- bpow_nonneg_IZR by lia.
    rewrite Rmult_assoc, <- bpow_add. do 2 f_equal. lia.
Qed.

Lemma grid_farther (x u : R) (q n : Z) :
  0 < u -> Rabs (x - IZR q * u) <= u / 2 ->
  Rabs (x - IZR q * u) <= Rabs (x - IZR n * u) /\
  (n <> q -> Rabs (x - IZR q * u) < u / 2 -> Rabs (x - IZR q * u) < Rabs (x - IZR n * u)).
Proof.
  intros Hu Hq.
  destruct (Z.eq_dec n q) as [->|Hne]; [split; [lra | congruence]|].
  assert (Hd : IZR n * u <= IZR q * u - u \/ IZR q * u + u <= IZR n * u).
  { destruct (Z_lt_le_dec n q) as [Hl|Hl].
    - left. assert (IZR n <= IZR q - 1) by (rewrite <- minus_IZR; apply IZR_le; lia). nra.
    - right. assert (IZR q + 1 <= IZR n) by (rewrite <- plus_IZR; apply IZR_le; lia). nra. }
  revert Hq. unfold Rabs. repeat destruct Rcase_abs; intros; split; intros; lra.
Qed.

(** Round to nearest on the binade [2^k, 2^(k+1)]. *)
Lemma nearest_grid (x y : R) (k q : Z) :
  bpow k <= x -> (2 ^ 52 <= q)%Z -> y = IZR q * bpow (k - 52) -> is_f64 y ->
  Rabs (x - y) <= bpow (k - 52) / 2 ->
  rounds_to x y /\
  (Rabs (x - y) < bpow (k - 52) / 2 -> forall z, is_f64 z -> z <> y -> Rabs (x - y) < Rabs (x - z)).
Proof.
  intros Hx Hq -> Hy Hd. set (u := bpow (k - 52)) in *.
  assert (Hu : 0 < u) by apply bpow_pos.
  assert (Hk : bpow k = IZR (2 ^ 52) * u).
  { unfold u. rewrite <- bpow_nonneg_IZR by lia. rewrite <- bpow_add. f_equal. lia. }
  assert (Hfar : forall z, is_f64 z -> Rabs z < bpow k ->
            Rabs (x - IZR q * u) <= x - bpow k /\ x - bpow k < Rabs (x - z)).
  { intros z Hz Hzk. split.
    - rewrite Hk. destruct (grid_farther x u q (2 ^ 52) Hu Hd) as [H _].
      revert H. unfold Rabs at 2. destruct Rcase_abs; lra.
    - revert Hzk. unfold Rabs. repeat destruct Rcase_abs; intros; lra. }
  split; [split; [exact Hy|] | intros Hlt z Hz Hne].
  - intros z Hz. destruct (Rle_lt_dec (bpow k) (Rabs z)) as [Hz'|Hz'].
    + destruct (f64_grid z k Hz Hz') as [n ->]. apply grid_farther; assumption.
    + destruct (Hfar z Hz Hz'). lra.
  - destruct (Rle_lt_dec (bpow k) (Rabs z)) as [Hz'|Hz'].
    + destruct (f64_grid z k Hz Hz') as [n ->].
      apply (grid_farther x u q n Hu Hd); [|exact Hlt].
      intros ->. apply Hne. reflexivity.
    + destruct (Hfar z Hz Hz'). lra.
Qed.

Lemma rounds_to_unique (x y y0 : R) :
  rounds_to x y -> is_f64 y0 ->
  (forall z, is_f64 z -> z <> y0 -> Rabs (x - y0) < Rabs (x - z)) -> y = y0.
Proof.
  intros [Hy Hn] Hy0 Hs. destruct (Req_dec y y0) as [|Hne]; [assumption|].
  specialize (Hs y Hy Hne). specialize (Hn y0 Hy0). lra.
Qed.

Lemma rounds_to_opp (x y : R) : rounds_to x y -> rounds_to (- x) (- y).
Proof.
  intros [Hy Hn]. split; [by apply is_f64_opp|]. intros z Hz.
  specialize (Hn (- z) (is_f64_opp z Hz)).
  replace (- x - - y) with (- (x - y)) by ring. replace (- x - z) with (- (x - - z)) by ring.
  rewrite !Rabs_Ropp. exact Hn.
Qed.

Lemma rounds_to_refl (x : R) : is_f64 x -> rounds_to x x.
Proof.
  intros Hx. split; [exact Hx|]. intros z _.
  rewrite Rminus_diag, Rabs_R0. apply Rabs_pos.
Qed.

Lemma rounds_to_exact (x y : R) : is_f64 x -> rounds_to x y -> y = x.
Proof.
  intros Hx [_ Hn]. specialize (Hn x Hx). rewrite Rminus_diag, Rabs_R0 in Hn.
  revert Hn. unfold Rabs. destruct Rcase_abs; intros; lra.
Qed.

Lemma rounds_to_le (x y d : R) : rounds_to x y -> is_f64 d -> x <= d -> y <= d.
Proof.
  intros [_ Hn] Hd Hx. specialize (Hn d Hd).
  destruct (Rle_lt_dec y d) as [|Hlt]; [assumption|].
  revert Hn. unfold Rabs. repeat destruct Rcase_abs; intros; lra.
Qed.

Lemma rounds_to_ge (x y d : R) : rounds_to x y -> is_f64 d -> d <= x -> d <= y.
Proof.
  intros [_ Hn] Hd Hx. specialize (Hn d Hd).
  destruct (Rle_lt_dec d y) as [|Hlt]; [assumption|].
  revert Hn. unfold Rabs. repeat destruct Rcase_abs; intros; lra.
Qed.

Lemma faithful_le (t y d : R) : faithful t y -> is_f64 d -> t < d -> y <= d.
Proof.
  intros [_ Hn] Hd Ht. destruct (Rle_lt_dec y d) as [|Hlt]; [assumption|].
  exfalso. apply (Hn d Hd).
  rewrite Rmin_left, Rmax_right by lra. lra.
Qed.

Lemma faithful_ge (t y d : R) : faithful t y -> is_f64 d -> d < t -> d <= y.
Proof.
  intros [_ Hn] Hd Ht. destruct (Rle_lt_dec d y) as [|Hlt]; [assumption|].
  exfalso. apply (Hn d Hd).
  rewrite Rmin_right, Rmax_left by lra. lra.
Qed.

Lemma f64_pos_ge (z : R) : is_f64 z -> 0 < z -> bpow (-1074) <= z.
Proof.
  intros (m & e & -> & Hm & He) Hz. pose proof (bpow_pos e).
  assert (Hm1 : 1 <= IZR m).
  { apply IZR_le. destruct (Z_lt_le_dec 0 m); [lia|].
    exfalso. apply IZR_le in l. nra. }
  pose proof (bpow_le (-1074) e ltac:(lia)). nra.
Qed.

Lemma faithful_tiny (t : R) : 0 < t < bpow (-1074) -> faithful t 0.
Proof.
  intros Ht. split; [exists 0%Z, 0%Z; split; [ring | lia]|].
  intros z Hz. rewrite Rmin_right, Rmax_left by lra. intros Hb.
  pose proof (f64_pos_ge z Hz ltac:(lra)). lra.
Qed.

(** Existence of a round-to-nearest result on the binade [2^k, 2^(k+1)]. *)
Lemma rounds_to_exists (x : R) (k : Z) :
  (-1022 <= k <= 1022)%Z -> bpow k <= x <= bpow (k + 1) -> exists y, rounds_to x y.
Proof.
  intros Hk Hx. set (u := bpow (k - 52)).
  assert (Hu : 0 < u) by apply bpow_pos.
  assert (Hk52 : bpow k = 4503599627370496 * u).
  { unfold u. change 4503599627370496 with (IZR (2 ^ 52)).
    rewrite <- bpow_nonneg_IZR by lia. rewrite <- bpow_add. f_equal. lia. }
  assert (Hk53 : bpow (k + 1) = 9007199254740992 * u).
  { unfold u. change 9007199254740992 with (IZR (2 ^ 53)).
    rewrite <- bpow_nonneg_IZR by lia. rewrite <- bpow_add. f_equal. lia. }
  set (r := x / u).
  assert (Hxr : x = r * u) by (unfold r; field; lra).
  assert (Hr : 4503599627370496 <= r <= 9007199254740992).
  { split; apply (Rmult_le_reg_r u); nra. }
  destruct (archimed (r + 1 / 2)) as [Ha1 Ha2].
  set (q := (up (r + 1 / 2) - 1)%Z).
  assert (Hq : r - 1 / 2 < IZR q <= r + 1 / 2) by (unfold q; rewrite minus_IZR; lra).
  assert (Hq1 : (2 ^ 52 <= q)%Z).
  { assert (IZR 4503599627370495 < IZR q) by lra. apply lt_IZR in H. lia. }
  assert (Hq2 : (q <= 2 ^ 53)%Z).
  { assert (IZR q < IZR 9007199254740993) by lra. apply lt_IZR in H. lia. }
  exists (IZR q * u).
  assert (Hy : is_f64 (IZR q * u)).
  { destruct (Z.eq_dec q (2 ^ 53)%Z) as [Heq|Hne].
    - exists 4503599627370496%Z, (k - 51)%Z. split; [|lia].
      rewrite Heq. unfold u. replace (k - 51)%Z with (k - 52 + 1)%Z by lia.
      rewrite bpow_add. change (bpow 1) with (2 * 1).
      change (IZR (2 ^ 53)) with 9007199254740992. ring.
    - exists q, (k - 52)%Z. split; [reflexivity | lia]. }
  apply (nearest_grid x (IZR q * u) k q); try assumption; [lra | reflexivity |].
  rewrite Hxr. replace (r * u - IZR q * u) with ((r - IZR q) * u) by ring.
  rewrite Rabs_mult, (Rabs_pos_eq u) by lra.
  assert (Rabs (r - IZR q) <= 1 / 2) by (apply Rabs_le; lra). fold u. nra.
Qed.

(** Existence of a faithful (round-down) result on [2^k, 2^(k+1)). *)
Lemma faithful_exists (t : R) (k : Z) :
  (-1022 <= k <= 1022)%Z -> bpow k <= t < bpow (k + 1) ->
  exists y, faithful t y /\ y <= t.
Proof.
  intros Hk Ht. set (u := bpow (k - 52)).
  assert (Hu : 0 < u) by apply bpow_pos.
  assert (Hk52 : bpow k = 4503599627370496 * u).
  { unfold u. change 4503599627370496 with (IZR (2 ^ 52)).
    rewrite <- bpow_nonneg_IZR by lia. rewrite <- bpow_add. f_equal. lia. }
  assert (Hk53 : bpow (k + 1) = 9007199254740992 * u).
  { unfold u. change 9007199254740992 with (IZR (2 ^ 53)).
    rewrite <- bpow_nonneg_IZR by lia. rewrite <- bpow_add. f_equal. lia. }
  set (r := t / u).
  assert (Htr : t = r * u) by (unfold r; field; lra).
  assert (Hr : 4503599627370496 <= r < 9007199254740992).
  { split; [apply (Rmult_le_reg_r u) | apply (Rmult_lt_reg_r u)]; nra. }
  destruct (archimed r) as [Ha1 Ha2].
  set (q := (up r - 1)%Z).
  assert (Hq : r - 1 < IZR q <= r) by (unfold q; rewrite minus_IZR; lra).
  assert (Hq1 : (2 ^ 52 <= q)%Z).
  { assert (IZR 4503599627370495 < IZR q) by lra. apply lt_IZR in H. lia. }
  assert (Hq2 : (q < 2 ^ 53)%Z).
  { assert (IZR q < IZR 9007199254740992) by lra. apply lt_IZR in H. lia. }
  assert (Hyt : IZR q * u <= t) by nra.
  exists (IZR q * u). split; [|exact Hyt]. split.
  - exists q, (k - 52)%Z. split; [reflexivity | lia].
  - intros z Hz. rewrite Rmin_right, Rmax_left by lra. intros [Hz1 Hz2].
    assert (Hzk : bpow k <= Rabs z).
    { rewrite Rabs_pos_eq; [|nra]. rewrite Hk52. assert (4503599627370496 <= IZR q).
      { change 4503599627370496 with (IZR (2 ^ 52)). apply IZR_le. lia. }
      nra. }
    destruct (f64_grid z k Hz Hzk) as [n ->]. fold u in Hz1, Hz2.
    assert (IZR q < IZR n) by (apply (Rmult_lt_reg_r u); lra).
    assert (IZR n < IZR q + 1) by (apply (Rmult_lt_reg_r u); nra).
    apply lt_IZR in H. rewrite <- plus_IZR in H0. apply lt_IZR in H0. lia.
Qed.

Lemma pow10_tiny (x : R) : x <= IZR (-1075) -> 0 < Rpower 10 x < bpow (-1074).
Proof.
  intros Hx. split; [unfold Rpower; apply exp_pos|].
  apply Rle_lt_trans with (Rpower 10 (IZR (-1075))); [apply Rle_Rpower; lra|].
  replace (IZR (-1075)) with (- IZR 1075) by (rewrite <- opp_IZR; reflexivity).
  rewrite Rpower_Ropp.
  apply Rle_lt_trans with (/ Rpower 2 (IZR 1075)).
  - apply Rinv_le_contravar; [unfold Rpower; apply exp_pos|].
    apply Rle_Rpower_l; [apply IZR_le; lia | lra].
  - rewrite <- powerRZ_Rpower by lra.
    change (/ powerRZ 2 1075) with (bpow (-1075)). apply bpow_lt. lia.
Qed.

Lemma ln4_bounds : 1 < ln 4 < 2.
Proof.
  split.
  - rewrite <- ln_exp at 1. apply ln_increasing; [apply exp_pos|].
    pose proof exp_le_3. lra.
  - rewrite <- (ln_exp 2). apply ln_increasing; [lra|].
    replace (exp 2) with (exp 1 * exp 1) by (rewrite <- exp_plus; f_equal; ring).
    pose proof (exp_ineq1 1 ltac:(lra)). nra.
Qed.

End F64Lemmas.

Module TeamFloatClaims.
Import TeamElo TeamEloF64 F64 F64Lemmas.

(** Counterexample to C1 (zero-sum exactly, not approximately): in the
    program's binary64 arithmetic, KC stored at 2^60 hosts BUF stored at
    1500 and loses 24-27.  KC's change (between -40 and -20) is below half
    the spacing of doubles at 2^60 (256), so the new KC rating rounds back
    to 2^60, while BUF gains at least 20: every result the program can
    return raises the sum of the two ratings by at least 20, and such a
    result exists. *)
Lemma update_ratings_f64_not_zero_sum :
  (exists nh na, update_ratings_f64 default_config Scenario.big_store "KC" "BUF" 24 27 false nh na) /\
  (forall nh na,
     update_ratings_f64 default_config Scenario.big_store "KC" "BUF" 24 27 false nh na ->
     20 <= (nh - get_rating default_config Scenario.big_store "KC")
           + (na - get_rating default_config Scenario.big_store "BUF")).
Proof.
  assert (Hkc : get_rating default_config Scenario.big_store "KC" = bpow 60) by reflexivity.
  assert (Hbuf : get_rating default_config Scenario.big_store "BUF" = 1500) by reflexivity.
  assert (B60 : bpow 60 = 1152921504606846976) by (rewrite bpow_nonneg_IZR by lia; reflexivity).
  assert (B59 : bpow 59 = 576460752303423488) by (rewrite bpow_nonneg_IZR by lia; reflexivity).
  assert (B51 : bpow 51 = 2251799813685248) by (rewrite bpow_nonneg_IZR by lia; reflexivity).
  assert (B10 : bpow 10 = 1024) by (rewrite bpow_nonneg_IZR by lia; reflexivity).
  assert (B11 : bpow 11 = 2048) by (rewrite bpow_nonneg_IZR by lia; reflexivity).
  assert (B8 : bpow 8 = 256) by (rewrite bpow_nonneg_IZR by lia; reflexivity).
  assert (B7 : bpow 7 = 128) by (rewrite bpow_nonneg_IZR by lia; reflexivity).
  assert (B5 : bpow 5 = 32) by (rewrite bpow_nonneg_IZR by lia; reflexivity).
  assert (B4 : bpow 4 = 16) by (rewrite bpow_nonneg_IZR by lia; reflexivity).
  assert (B0 : bpow 0 = 1) by reflexivity.
  assert (B1 : bpow 1 = 2) by (rewrite bpow_nonneg_IZR by lia; reflexivity).
  assert (Bm1 : bpow (-1) = / 2) by (change (bpow (-1)) with (/ bpow 1); rewrite B1; reflexivity).
  assert (Bm52 : bpow (-52) = / 4503599627370496)
    by (change (bpow (-52)) with (/ bpow 52); rewrite bpow_nonneg_IZR by lia; reflexivity).
  assert (Bm53 : bpow (-53) = / 9007199254740992)
    by (change (bpow (-53)) with (/ bpow 53); rewrite bpow_nonneg_IZR by lia; reflexivity).
  assert (Btiny : bpow (-1074) < bpow (-53)) by (apply bpow_lt; lia).
  assert (F60 : is_f64 (bpow 60)) by (apply is_f64_bpow; lia).
  assert (F0 : is_f64 0) by (apply (is_f64_int 0); lia).
  assert (F1 : is_f64 1) by (apply (is_f64_int 1); lia).
  unfold update_ratings_f64. rewrite Hkc, Hbuf.
  change (Z.gtb 24 27) with false. change (Z.ltb 24 27) with true.
  change (Z.abs (Z.abs (24 - 27)) + 1)%Z with 4%Z.
  cbv beta iota zeta. cbn [home_advantage k_factor default_config].
  split.
  - (* a result of the float program *)
    destruct (faithful_exists (ln 4) 0) as [mov [Hmov Hmovle]].
    { lia. }
    { rewrite B0. change (bpow (0 + 1)) with (bpow 1). rewrite B1.
      pose proof ln4_bounds. lra. }
    assert (Hmov1 : 1 <= mov).
    { apply (faithful_ge _ _ _ Hmov F1). pose proof ln4_bounds; lra. }
    assert (Hmov2 : mov <= 2) by (pose proof ln4_bounds; lra).
    assert (Hk0 : exists k0, rounds_to (20 * mov) k0).
    { destruct (Rle_lt_dec (20 * mov) 32).
      - apply (rounds_to_exists _ 4); [lia|]. change (4 + 1)%Z with 5%Z. lra.
      - apply (rounds_to_exists _ 5); [lia|]. change (5 + 1)%Z with 6%Z.
        rewrite (bpow_nonneg_IZR 6) by lia. change (IZR (2 ^ 6)) with 64. lra. }
    destruct Hk0 as [k0 Hk0].
    assert (F20 : is_f64 20) by (apply (is_f64_int 20); lia).
    assert (F40 : is_f64 40) by (apply (is_f64_int 40); lia).
    pose proof (rounds_to_ge _ _ _ Hk0 F20 ltac:(lra)) as Hk0a.
    pose proof (rounds_to_le _ _ _ Hk0 F40 ltac:(lra)) as Hk0b.
    destruct Hk0 as [Fk0 Hk0n].
    assert (Hna : exists na, rounds_to (1500 + k0) na).
    { apply (rounds_to_exists _ 10); [lia|]. change (10 + 1)%Z with 11%Z. lra. }
    destruct Hna as [na Hna].
    assert (Hnh : rounds_to (bpow 60 + - k0) (bpow 60)).
    { refine (proj1 (nearest_grid _ _ 59 (2 ^ 53) _ _ _ F60 _)).
      - rewrite B59, B60. lra.
      - lia.
      - change (59 - 52)%Z with 7%Z. rewrite B7, B60. change (IZR (2 ^ 53)) with 9007199254740992. lra.
      - change (59 - 52)%Z with 7%Z. rewrite B7.
        replace (bpow 60 + - k0 - bpow 60) with (- k0) by ring.
        rewrite Rabs_Ropp, Rabs_right by lra. lra. }
    exists (bpow 60), na, (bpow 60), (- (bpow 60 - 1536)),
      (- (5764607523034227 * bpow (-1))), 0, 1, 1, 0, mov, 1, k0, k0, (-1), 1, (- k0), k0.
    assert (Fex : - (5764607523034227 * bpow (-1)) <= IZR (-1075)).
    { rewrite Bm1. lra. }
    repeat match goal with |- _ /\ _ => split end.
    + (* home_rating_adj *)
      refine (proj1 (nearest_grid _ _ 60 (2 ^ 52) _ _ _ F60 _)).
      * lra.
      * lia.
      * change (60 - 52)%Z with 8%Z. rewrite B8, B60. change (IZR (2 ^ 52)) with 4503599627370496. lra.
      * change (60 - 52)%Z with 8%Z. rewrite B8.
        replace (bpow 60 + 50 - bpow 60) with 50 by ring.
        rewrite Rabs_right by lra. lra.
    + (* diff *)
      replace (1500 - bpow 60) with (- (bpow 60 - 1500)) by ring.
      apply rounds_to_opp.
      refine (proj1 (nearest_grid _ _ 59 9007199254740980 _ _ _ _ _)).
      * rewrite B59, B60. lra.
      * lia.
      * change (59 - 52)%Z with 7%Z. rewrite B7, B60. lra.
      * exists 9007199254740980%Z, 7%Z. rewrite B7, B60. split; [lra | lia].
      * change (59 - 52)%Z with 7%Z. rewrite B7.
        replace (bpow 60 - 1500 - (bpow 60 - 1536)) with 36 by ring.
        rewrite Rabs_right by lra. lra.
    + (* exponent *)
      replace (- (bpow 60 - 1536) / 400) with (- ((bpow 60 - 1536) / 400)) by (field; lra).
      apply rounds_to_opp.
      refine (proj1 (nearest_grid _ _ 51 5764607523034227 _ _ _ _ _)).
      * rewrite B51, B60. lra.
      * lia.
      * reflexivity.
      * exists 5764607523034227%Z, (-1)%Z. split; [reflexivity | lia].
      * change (51 - 52)%Z with (-1)%Z. rewrite Bm1, B60.
        replace ((1152921504606846976 - 1536) / 400 - 5764607523034227 * / 2) with (1 / 10)
          by field.
        rewrite Rabs_right by lra. lra.
    + (* power *)
      apply faithful_tiny, pow10_tiny. exact Fex.
    + (* denom *)
      replace (1 + 0) with 1 by ring. apply rounds_to_refl, F1.
    + (* home_expected *)
      replace (1 / 1) with 1 by field. apply rounds_to_refl, F1.
    + (* away_expected *)
      replace (1 - 1) with 0 by ring. apply rounds_to_refl, F0.
    + exact Hmov.
    + reflexivity.
    + split; [exact Fk0 | exact Hk0n].
    + (* k *)
      replace (k0 * 1) with k0 by ring. apply rounds_to_refl, Fk0.
    + (* home_delta *)
      replace (0 - 1) with (-1) by ring. apply rounds_to_refl, (is_f64_int (-1)); lia.
    + (* away_delta *)
      replace (1 - 0) with 1 by ring. apply rounds_to_refl, F1.
    + (* home_change *)
      replace (k0 * -1) with (- k0) by ring. apply rounds_to_refl, is_f64_opp, Fk0.
    + (* away_change *)
      replace (k0 * 1) with k0 by ring. apply rounds_to_refl, Fk0.
    + exact Hnh.
    + exact Hna.
  - (* every result of the float program *)
    intros nh na (hadj & diff & ex & p & den & he & ae & mov & pm & k0 & k & hd & ad & hc & ac &
                  H1 & H2 & H3 & H4 & H5 & H6 & H7 & H8 & H9 & H10 & H11 & H12 & H13 & H14 &
                  H15 & H16 & H17).
    pose proof (rounds_to_ge _ _ _ H1 F60 ltac:(lra)) as Hadj.
    assert (Fm59 : is_f64 (- bpow 59)) by (apply is_f64_opp, is_f64_bpow; lia).
    pose proof (rounds_to_le _ _ _ H2 Fm59 ltac:(lra)) as Hdiff.
    assert (Fm1075 : is_f64 (IZR (-1075))) by (apply is_f64_int; lia).
    pose proof (rounds_to_le _ _ _ H3 Fm1075 ltac:(lra)) as Hex.
    destruct (pow10_tiny ex Hex) as [Ht1 Ht2].
    assert (Ftiny : is_f64 (bpow (-1074))) by (apply is_f64_bpow; lia).
    pose proof (faithful_ge _ _ _ H4 F0 Ht1) as Hp0.
    pose proof (faithful_le _ _ _ H4 Ftiny Ht2) as Hp1.
    assert (Hden : den = 1).
    { destruct (nearest_grid (1 + p) 1 0 (2 ^ 52)) as [_ Hs].
      - rewrite B0. lra.
      - lia.
      - change (0 - 52)%Z with (-52)%Z. rewrite Bm52. change (IZR (2 ^ 52)) with 4503599627370496.
        field.
      - exact F1.
      - change (0 - 52)%Z with (-52)%Z. rewrite Bm52.
        replace (1 + p - 1) with p by ring. rewrite Rabs_right by lra. lra.
      - apply (rounds_to_unique _ _ _ H5 F1). apply Hs.
        change (0 - 52)%Z with (-52)%Z. rewrite Bm52.
        replace (1 + p - 1) with p by ring. rewrite Rabs_right by lra. lra. }
    subst den.
    replace (1 / 1) with 1 in H6 by field.
    pose proof (rounds_to_exact _ _ F1 H6) as Hhe. subst he.
    replace (1 - 1) with 0 in H7 by ring.
    pose proof (rounds_to_exact _ _ F0 H7) as Hae. subst ae.
    replace (0 - 1) with (-1) in H12 by ring.
    pose proof (rounds_to_exact _ _ ltac:(apply (is_f64_int (-1)); lia) H12) as Hhd. subst hd.
    replace (1 - 0) with 1 in H13 by ring.
    pose proof (rounds_to_exact _ _ F1 H13) as Had. subst ad.
    pose proof ln4_bounds as [L1 L2].
    assert (F2 : is_f64 2) by (apply (is_f64_int 2); lia).
    pose proof (faithful_ge _ _ _ H8 F1 L1) as Hm1.
    pose proof (faithful_le _ _ _ H8 F2 L2) as Hm2.
    subst pm.
    assert (F20 : is_f64 20) by (apply (is_f64_int 20); lia).
    assert (F40 : is_f64 40) by (apply (is_f64_int 40); lia).
    pose proof (rounds_to_ge _ _ _ H10 F20 ltac:(lra)) as Hk0a.
    pose proof (rounds_to_le _ _ _ H10 F40 ltac:(lra)) as Hk0b.
    replace (k0 * 1) with k0 in H11 by ring.
    pose proof (rounds_to_exact _ _ (proj1 H10) H11) as Hk. subst k.
    replace (k0 * -1) with (- k0) in H14 by ring.
    pose proof (rounds_to_exact _ _ (is_f64_opp _ (proj1 H10)) H14) as Hhc. subst hc.
    replace (k0 * 1) with k0 in H15 by ring.
    pose proof (rounds_to_exact _ _ (proj1 H10) H15) as Hac. subst ac.
    assert (Hnh : nh = bpow 60).
    { destruct (nearest_grid (bpow 60 + - k0) (bpow 60) 59 (2 ^ 53)) as [_ Hs].
      - rewrite B59, B60. lra.
      - lia.
      - change (59 - 52)%Z with 7%Z. rewrite B7, B60. change (IZR (2 ^ 53)) with 9007199254740992. lra.
      - exact F60.
      - change (59 - 52)%Z with 7%Z. rewrite B7.
        replace (bpow 60 + - k0 - bpow 60) with (- k0) by ring.
        rewrite Rabs_Ropp, Rabs_right by lra. lra.
      - apply (rounds_to_unique _ _ _ H16 F60). apply Hs.
        change (59 - 52)%Z with 7%Z. rewrite B7.
        replace (bpow 60 + - k0 - bpow 60) with (- k0) by ring.
        rewrite Rabs_Ropp, Rabs_right by lra. lra. }
    assert (F1520 : is_f64 1520) by (apply (is_f64_int 1520); lia).
    pose proof (rounds_to_ge _ _ _ H17 F1520 ltac:(lra)) as Hna.
    lra.
Qed.

End TeamFloatClaims.
